(** * flux reconcile source bucket: request a reconciliation and wait for it

    A shallow embedding of [cmd/flux/reconcile_source_bucket.go].  The Go
    variable [bucket], which every closure of the file reaches through the
    same pointer, is threaded explicitly next to the state of the outside
    world (the API server, the wall clock, the terminal).  The API client,
    [retry.RetryOnConflict] and [wait.PollImmediate] are collaborators of
    the file; they are modelled by their contracts. *)

From Stdlib Require Import ZArith List Bool Ascii String Lia.
From stdpp Require Import base option list strings gmap.

Local Open Scope Z_scope.
Local Open Scope string_scope.
Local Open Scope list_scope.

(** ** Data model (sourcev1.Bucket, as far as the file reads and writes it) *)

Module meta.
Definition ReadyCondition : string := "Ready".
Definition ReconcileRequestAnnotation : string :=
  "reconcile.fluxcd.io/requestedAt".
End meta.

Module metav1.
(** [metav1.ConditionStatus] is a string type. *)
Definition ConditionTrue : string := "True".
Definition ConditionFalse : string := "False".
Definition ConditionUnknown : string := "Unknown".

Record Condition := {
  Type_ : string;
  Status : string;
  Message : string
}.
End metav1.

Record Artifact := { Revision : string }.

Record BucketSpec := { Suspend : bool }.

Record BucketStatus := {
  ObservedGeneration : Z;
  Conditions : list metav1.Condition;
  (** a pointer in Go: [None] is nil *)
  Status_Artifact : option Artifact;
  LastHandledReconcileAt : string
}.

Record Bucket := {
  (** promoted from the embedded ObjectMeta *)
  ResourceVersion : nat;
  Generation : Z;
  (** a Go map: [None] is the nil map *)
  Annotations : option (gmap string string);
  Spec : BucketSpec;
  Status : BucketStatus
}.

(** [var bucket sourcev1.Bucket] *)
Definition zeroBucket : Bucket :=
  {| ResourceVersion := 0%nat; Generation := 0; Annotations := None;
     Spec := {| Suspend := false |};
     Status := {| ObservedGeneration := 0; Conditions := [];
                  Status_Artifact := None; LastHandledReconcileAt := "" |} |}.

Definition with_Annotations (a : option (gmap string string)) (b : Bucket) : Bucket :=
  {| ResourceVersion := ResourceVersion b; Generation := Generation b;
     Annotations := a; Spec := Spec b; Status := Status b |}.

Definition with_ResourceVersion (v : nat) (b : Bucket) : Bucket :=
  {| ResourceVersion := v; Generation := Generation b;
     Annotations := Annotations b; Spec := Spec b; Status := Status b |}.

(** ** Errors *)

Inductive error :=
| ErrNotFound                 (* the API answer NotFound *)
| ErrConflict                 (* the API answer Conflict *)
| ErrServer (msg : string)    (* any other failed call: transport, deadline *)
| ErrWaitTimeout              (* wait.ErrWaitTimeout *)
| Errorf (format : string).   (* fmt.Errorf(format), no operands *)

(** [errors.IsConflict] *)
Definition IsConflict (e : error) : bool :=
  match e with ErrConflict => true | _ => false end.

Fixpoint has_percent (s : string) : bool :=
  match s with
  | EmptyString => false
  | String c r => if Ascii.eqb c "%"%char then true else has_percent r
  end.

(** [err.Error()], where this file decides the text.  A format without a
    percent sign is printed as it is; what fmt makes of verbs that lack
    their operands is not modelled, nor are the texts the API server
    composes for NotFound and Conflict ([None]). *)
Definition Error (e : error) : option string :=
  match e with
  | ErrNotFound | ErrConflict => None
  | ErrServer msg => Some msg
  | ErrWaitTimeout => Some "timed out waiting for the condition"
  | Errorf format => if has_percent format then None else Some format
  end.

(** [strings.Contains] *)
Fixpoint HasPrefix (s prefix : string) : bool :=
  match prefix, s with
  | EmptyString, _ => true
  | String p ps, String c cs => Ascii.eqb p c && HasPrefix cs ps
  | String _ _, EmptyString => false
  end.

Fixpoint Contains (s substr : string) : bool :=
  HasPrefix s substr ||
  match s with
  | EmptyString => false
  | String _ r => Contains r substr
  end.

(** ** The outside world *)

(** What the rest of the cluster does between two calls of this client.
    [Others f] is a write of the controller or of another client: it puts
    the object under its next resource version, so that a copy fetched
    before it is refused when written back.  [Stale] is a conflict that
    shows in nothing this model carries (a change to a part of the object
    left out here, or a test double that says Conflict): a write is
    refused, a read is served as usual. *)
Inductive Event :=
| Idle                              (* nothing *)
| Tick (t : string)                 (* the wall clock now reads [t] (RFC3339Nano) *)
| Others (f : Bucket -> Bucket)     (* somebody else writes the object *)
| Deleted                           (* the object is deleted *)
| Unavailable (msg : string)        (* the call fails before it is served *)
| Stale.                            (* the server refuses a write as conflicting *)

(** The calls the server has seen from this client, oldest first. *)
Inductive Call :=
| CallGet (reply : error + Bucket)
| CallUpdate (sent : Bucket) (reply : option error).

(** [logger.Actionf], [logger.Successf], [logger.Waitingf] *)
Inductive LogLine :=
| Actionf (text : string)
| Successf (text : string)
| Waitingf (text : string).

Record World := {
  stored : option Bucket;      (* the object of the invocation's name, if it exists *)
  now : string;                (* time.Now().Format(time.RFC3339Nano) *)
  schedule : list Event;       (* one event ahead of each call still to come *)
  trace : list Call;
  output : list LogLine
}.

Definition with_stored (s : option Bucket) (w : World) : World :=
  {| stored := s; now := now w; schedule := schedule w;
     trace := trace w; output := output w |}.

Definition with_now (t : string) (w : World) : World :=
  {| stored := stored w; now := t; schedule := schedule w;
     trace := trace w; output := output w |}.

Definition with_schedule (l : list Event) (w : World) : World :=
  {| stored := stored w; now := now w; schedule := l;
     trace := trace w; output := output w |}.

Definition record (c : Call) (w : World) : World :=
  {| stored := stored w; now := now w; schedule := schedule w;
     trace := trace w ++ [c]; output := output w |}.

Definition log (l : LogLine) (w : World) : World :=
  {| stored := stored w; now := now w; schedule := schedule w;
     trace := trace w; output := output w ++ [l] |}.

(** The effect of an event on the world. *)
Definition happen (e : Event) (w : World) : World :=
  match e with
  | Tick t => with_now t w
  | Others f =>
      match stored w with
      | Some b => with_stored (Some (with_ResourceVersion (S (ResourceVersion b)) (f b))) w
      | None => w
      end
  | Deleted => with_stored None w
  | Idle | Unavailable _ | Stale => w
  end.

(** The next event takes place; an exhausted schedule is idle. *)
Definition arrive (w : World) : Event * World :=
  match schedule w with
  | [] => (Idle, w)
  | e :: rest => (e, happen e (with_schedule rest w))
  end.

(** ** The API client (sigs.k8s.io/controller-runtime/pkg/client) *)

(** A program over the Go variable [bucket] and the world. *)
Definition Prog (A : Type) : Type := Bucket -> World -> A * Bucket * World.

(** [kubeClient.Get(ctx, namespacedName, bucket)]: the stored object is
    written into [bucket]; on an error [bucket] is left as it was. *)
Definition Get : Prog (option error) := fun bucket w =>
  let '(e, w1) := arrive w in
  match e with
  | Unavailable msg =>
      (Some (ErrServer msg), bucket, record (CallGet (inl (ErrServer msg))) w1)
  | _ =>
      match stored w1 with
      | None => (Some ErrNotFound, bucket, record (CallGet (inl ErrNotFound)) w1)
      | Some b => (None, b, record (CallGet (inr b)) w1)
      end
  end.

(** [kubeClient.Update(ctx, bucket)]: optimistic concurrency on the
    resource version; an accepted write is stored under the next version
    and written back into [bucket]. *)
Definition Update : Prog (option error) := fun bucket w =>
  let '(e, w1) := arrive w in
  let refuse err := (Some err, bucket, record (CallUpdate bucket (Some err)) w1) in
  match e with
  | Unavailable msg => refuse (ErrServer msg)
  | Stale => refuse ErrConflict
  | _ =>
      match stored w1 with
      | None => refuse ErrNotFound
      | Some s =>
          if Nat.eqb (ResourceVersion s) (ResourceVersion bucket) then
            let b' := with_ResourceVersion (S (ResourceVersion s)) bucket in
            (None, b', record (CallUpdate bucket None) (with_stored (Some b') w1))
          else refuse ErrConflict
      end
  end.

(** ** k8s.io/apimachinery/pkg/api/meta *)

Module apimeta.
(** [FindStatusCondition]: the first condition of the given type. *)
Fixpoint FindStatusCondition (conditions : list metav1.Condition)
    (conditionType : string) : option metav1.Condition :=
  match conditions with
  | [] => None
  | c :: rest =>
      if String.eqb (metav1.Type_ c) conditionType then Some c
      else FindStatusCondition rest conditionType
  end.

(** [IsStatusConditionPresentAndEqual] *)
Fixpoint IsStatusConditionPresentAndEqual (conditions : list metav1.Condition)
    (conditionType : string) (status : string) : bool :=
  match conditions with
  | [] => false
  | c :: rest =>
      if String.eqb (metav1.Type_ c) conditionType
      then String.eqb (metav1.Status c) status
      else IsStatusConditionPresentAndEqual rest conditionType status
  end.

Definition IsStatusConditionFalse (conditions : list metav1.Condition)
    (conditionType : string) : bool :=
  IsStatusConditionPresentAndEqual conditions conditionType metav1.ConditionFalse.
End apimeta.

(** ** k8s.io/apimachinery/pkg/util/wait and k8s.io/client-go/util/retry *)

(** [wait.ConditionFunc], over whatever state the closure reaches. *)
Definition ConditionFunc (St : Type) : Type := St -> (bool * option error) * St.

Module wait.
(** [ExponentialBackoff]: the condition is run at most [steps] times,
    with a growing sleep in between (the delays are not modelled). *)
Fixpoint ExponentialBackoff {St : Type} (steps : nat)
    (condition : ConditionFunc St) (s : St) : option error * St :=
  match steps with
  | O => (Some ErrWaitTimeout, s)
  | S k =>
      let '((ok, err), s1) := condition s in
      match err with
      | Some e => (Some e, s1)
      | None => if ok then (None, s1) else ExponentialBackoff k condition s1
      end
  end.

(** [WaitFor] on the channel of [poller(interval, timeout)]: the
    condition is run on each of the [ticks] ticks that fit before the
    deadline, and once more when the deadline closes the channel. *)
Fixpoint WaitFor {St : Type} (ticks : nat)
    (fn : ConditionFunc St) (s : St) : option error * St :=
  let '((ok, err), s1) := fn s in
  match err with
  | Some e => (Some e, s1)
  | None =>
      if ok then (None, s1)
      else match ticks with
           | O => (Some ErrWaitTimeout, s1)
           | S k => WaitFor k fn s1
           end
  end.

(** [PollImmediate]: the condition is tried at once, then polled. *)
Definition PollImmediate {St : Type} (ticks : nat)
    (condition : ConditionFunc St) (s : St) : option error * St :=
  let '((done, err), s1) := condition s in
  match err with
  | Some e => (Some e, s1)
  | None => if done then (None, s1) else WaitFor ticks condition s1
  end.
End wait.

Module retry.
(** [retry.DefaultBackoff] is
    [{Steps: 4, Duration: 10ms, Factor: 5.0, Jitter: 0.1}]. *)
Definition DefaultBackoff_Steps : nat := 4.

(** [OnError]: the condition closure handed to [ExponentialBackoff];
    [lastErr] is a variable of the enclosing call that it assigns. *)
Definition OnError_condition {St : Type} (retriable : error -> bool)
    (fn : St -> option error * St) : ConditionFunc (option error * St) :=
  fun '(lastErr, s0) =>
    let '(err, s1) := fn s0 in
    match err with
    | None => ((true, None), (lastErr, s1))
    | Some e =>
        if retriable e then ((false, None), (Some e, s1))
        else ((false, Some e), (lastErr, s1))
    end.

(** [if err == wait.ErrWaitTimeout { err = lastErr }; return err] *)
Definition OnError_result {St : Type}
    (r : option error * (option error * St)) : option error * St :=
  let '(err, (lastErr, s')) := r in
  match err with
  | Some ErrWaitTimeout => (lastErr, s')
  | _ => (err, s')
  end.

Definition OnError {St : Type} (steps : nat) (retriable : error -> bool)
    (fn : St -> option error * St) (s : St) : option error * St :=
  OnError_result
    (wait.ExponentialBackoff steps (OnError_condition retriable fn) (None, s)).

Definition RetryOnConflict {St : Type} (steps : nat)
    (fn : St -> option error * St) (s : St) : option error * St :=
  OnError steps IsConflict fn s.
End retry.

(** ** The file's functions *)

Definition curry {A : Type} (p : Prog A) : Bucket * World -> A * (Bucket * World) :=
  fun '(b, w) => let '(a, b', w') := p b w in (a, (b', w')).

Definition uncurry {A : Type} (f : Bucket * World -> A * (Bucket * World)) : Prog A :=
  fun b w => let '(a, (b', w')) := f (b, w) in (a, b', w').

(** [isBucketReady]: the returned closure. *)
Definition isBucketReady : Prog (bool * option error) := fun bucket w =>
  let '(err, bucket, w) := Get bucket w in
  match err with
  | Some e => ((false, Some e), bucket, w)
  | None =>
      (* Confirm the state we are observing is for the current generation *)
      if negb (Z.eqb (Generation bucket) (ObservedGeneration (Status bucket))) then
        ((false, None), bucket, w)
      else
        match apimeta.FindStatusCondition (Conditions (Status bucket)) meta.ReadyCondition with
        | Some c =>
            if String.eqb (metav1.Status c) metav1.ConditionTrue then
              ((true, None), bucket, w)
            else if String.eqb (metav1.Status c) metav1.ConditionFalse then
              ((false, Some (Errorf (metav1.Message c))), bucket, w)
            else ((false, None), bucket, w)
        | None => ((false, None), bucket, w)
        end
  end.

(** [bucketReconciliationHandled]: the returned closure. *)
Definition bucketReconciliationHandled (lastHandledReconcileAt : string)
    : Prog (bool * option error) := fun bucket w =>
  let '(err, bucket, w) := Get bucket w in
  match err with
  | Some e => ((false, Some e), bucket, w)
  | None =>
      ((negb (String.eqb (LastHandledReconcileAt (Status bucket)) lastHandledReconcileAt),
        None), bucket, w)
  end.

(** The function literal that [requestBucketReconciliation] hands to
    [retry.RetryOnConflict]: one fetch, mutate, write. *)
Definition requestBucketReconciliation_attempt : Prog (option error) := fun bucket w =>
  let '(err, bucket, w) := Get bucket w in
  match err with
  | Some e => (Some e, bucket, w)
  | None =>
      let bucket :=
        match Annotations bucket with
        | None =>
            with_Annotations (Some {[ meta.ReconcileRequestAnnotation := now w ]}) bucket
        | Some m =>
            with_Annotations (Some (<[ meta.ReconcileRequestAnnotation := now w ]> m)) bucket
        end in
      Update bucket w
  end.

Definition requestBucketReconciliation : Prog (option error) :=
  uncurry (retry.RetryOnConflict retry.DefaultBackoff_Steps
             (curry requestBucketReconciliation_attempt)).

(** The ambient configuration the command reads.  [KubeClient] is what
    [utils.KubeClient(rootArgs.kubeconfig, rootArgs.kubecontext)] answers
    (nil, or the error that keeps the client from being built); [ticks]
    is the number of poll ticks of [rootArgs.pollInterval] that fit into
    [rootArgs.timeout]. *)
Record RootArgs := {
  namespace : string;
  KubeClient : option error;
  ticks : nat
}.

(** How a call of the command ends: it returns its [error] (nil is
    success), or the Go runtime panics on a nil pointer dereference.
    The deadline of [ctx] shows in the world as calls that fail
    ([Unavailable]). *)
Inductive Outcome :=
| Returned (err : option error)
| Panicked.

Definition reconcileSourceBucketCmdRun (rootArgs : RootArgs) (args : list string)
    (w : World) : Outcome * Bucket * World :=
  match args with
  | [] => (Returned (Some (Errorf "source name is required")), zeroBucket, w)
  | name :: _ =>
  match KubeClient rootArgs with
  | Some err => (Returned (Some err), zeroBucket, w)
  | None =>
  let bucket := zeroBucket in
  let '(err, bucket, w) := Get bucket w in
  match err with
  | Some e => (Returned (Some e), bucket, w)
  | None =>
  if Suspend (Spec bucket) then
    (Returned (Some (Errorf "resource is suspended")), bucket, w)
  else
  let lastHandledReconcileAt := LastHandledReconcileAt (Status bucket) in
  let w := log (Actionf ("annotating Bucket source " +:+ name +:+ " in "
                         +:+ namespace rootArgs +:+ " namespace")) w in
  let '(err, bucket, w) := requestBucketReconciliation bucket w in
  match err with
  | Some e => (Returned (Some e), bucket, w)
  | None =>
  let w := log (Successf "Bucket source annotated") w in
  let w := log (Waitingf "waiting for Bucket source reconciliation") w in
  let '(err, bucket, w) :=
    uncurry (wait.PollImmediate (ticks rootArgs)
               (curry (bucketReconciliationHandled lastHandledReconcileAt)))
      bucket w in
  match err with
  | Some e => (Returned (Some e), bucket, w)
  | None =>
  let w := log (Successf "Bucket source reconciliation completed") w in
  if apimeta.IsStatusConditionFalse (Conditions (Status bucket)) meta.ReadyCondition then
    (Returned (Some (Errorf "Bucket source reconciliation failed")), bucket, w)
  else
    (* bucket.Status.Artifact.Revision *)
    match Status_Artifact (Status bucket) with
    | None => (Panicked, bucket, w)
    | Some artifact =>
        (Returned None, bucket, log (Successf ("fetched revision " +:+ Revision artifact)) w)
    end
  end end end end end.

(** ** Sample runs *)

Module Samples.
Definition podinfo : Bucket :=
  {| ResourceVersion := 7%nat; Generation := 2; Annotations := None;
     Spec := {| Suspend := false |};
     Status := {| ObservedGeneration := 1; Conditions := [];
                  Status_Artifact := None; LastHandledReconcileAt := "" |} |}.

Definition with_Status (s : BucketStatus) (b : Bucket) : Bucket :=
  {| ResourceVersion := ResourceVersion b; Generation := Generation b;
     Annotations := Annotations b; Spec := Spec b; Status := s |}.

Definition ready (status message : string) : metav1.Condition :=
  {| metav1.Type_ := meta.ReadyCondition; metav1.Status := status;
     metav1.Message := message |}.

(** The controller consumes the trigger and reports. *)
Definition controller (observed : Z) (conds : list metav1.Condition)
    (artifact : option Artifact) : Event :=
  Others (with_Status {| ObservedGeneration := observed; Conditions := conds;
                         Status_Artifact := artifact;
                         LastHandledReconcileAt := "2024-01-01T00:00:00Z" |}).

Definition rootArgs : RootArgs :=
  {| namespace := "flux-system"; KubeClient := None; ticks := 3 |}.

Definition cluster (events : list Event) : World :=
  {| stored := Some podinfo; now := "2024-01-01T00:00:00.000000001Z";
     schedule := events; trace := []; output := [] |}.
End Samples.

(** ** Notions the statements below use *)

(** An event that leaves the stored object alone. *)
Definition quiet (e : Event) : bool :=
  match e with
  | Others _ | Deleted => false
  | Idle | Tick _ | Unavailable _ | Stale => true
  end.

(** An event that does not stand in the way of the call it precedes. *)
Definition calm (e : Event) : bool :=
  match e with
  | Idle | Tick _ => true
  | _ => false
  end.

(** The event ahead of the next call. *)
Definition upcoming (w : World) : Event :=
  match schedule w with
  | [] => Idle
  | e :: _ => e
  end.

(** Each of the next [n] fetch-mutate-write attempts ends in a write that
    the server rejects as a conflict. *)
Fixpoint every_write_conflicts (n : nat) (bucket : Bucket) (w : World) : Prop :=
  match n with
  | O => True
  | S k =>
      let '(err, bucket', w') := requestBucketReconciliation_attempt bucket w in
      err = Some ErrConflict /\ every_write_conflicts k bucket' w'
  end.

(** The objects this client got the server to store, oldest first. *)
Definition accepted_writes (calls : list Call) : list Bucket :=
  flat_map (fun c => match c with CallUpdate sent None => [sent] | _ => [] end) calls.

(** The wait of the command: [wait.PollImmediate] over the closure of
    [bucketReconciliationHandled], as reconcileSourceBucketCmdRun calls it. *)
Definition handled_wait (rootArgs : RootArgs) (lastHandledReconcileAt : string)
    : Prog (option error) :=
  uncurry (wait.PollImmediate (ticks rootArgs)
             (curry (bucketReconciliationHandled lastHandledReconcileAt))).

(** The world as the command has it when it starts that wait. *)
Definition before_wait (w : World) : World :=
  log (Waitingf "waiting for Bucket source reconciliation")
    (log (Successf "Bucket source annotated") w).

(** The world as the command has it when it calls the trigger mutator. *)
Definition before_request (rootArgs : RootArgs) (name : string) (w : World) : World :=
  log (Actionf ("annotating Bucket source " +:+ name +:+ " in "
                +:+ namespace rootArgs +:+ " namespace")) w.

(** A fetch that delivered a snapshot still carrying the baseline. *)
Definition unhandled_fetch (baseline : string) (c : Call) : Prop :=
  exists snapshot, c = CallGet (inr snapshot) /\
                   LastHandledReconcileAt (Status snapshot) = baseline.

(** The copy one attempt of the trigger writes back: [snapshot] with the
    reconcile request set to [t], in a fresh map where it had none. *)
Definition requested (t : string) (snapshot : Bucket) : Bucket :=
  with_Annotations
    (Some (<[ meta.ReconcileRequestAnnotation := t ]> (default ∅ (Annotations snapshot))))
    snapshot.

(** A call that reads. *)
Definition is_fetch (c : Call) : bool :=
  match c with
  | CallGet _ => true
  | CallUpdate _ _ => false
  end.

(** The five lines a successful run prints. *)
Definition success_lines (rootArgs : RootArgs) (name revision : string) : list LogLine :=
  [Actionf ("annotating Bucket source " +:+ name +:+ " in "
            +:+ namespace rootArgs +:+ " namespace");
   Successf "Bucket source annotated";
   Waitingf "waiting for Bucket source reconciliation";
   Successf "Bucket source reconciliation completed";
   Successf ("fetched revision " +:+ revision)].


(** The world after its next [n] events, had this client made no call. *)
Definition elapse (n : nat) (w : World) : World :=
  Nat.iter n (fun w0 => (arrive w0).2) w.

(** ** The API client: what a call leaves behind *)

Section Client.
Implicit Types (bucket snapshot : Bucket) (w : World) (e : error).

Lemma arrive_trace w :
  trace (arrive w).2 = trace w /\ output (arrive w).2 = output w.
Proof.
  unfold arrive. destruct (schedule w) as [|ev rest]; [done|].
  destruct ev; simpl; try done. by destruct (stored w).
Qed.

(** A fetch that succeeds hands out the stored object and nothing else. *)
Lemma Get_ok bucket w snapshot w' :
  Get bucket w = (None, snapshot, w') ->
  stored w' = Some snapshot /\
  w' = record (CallGet (inr snapshot)) (arrive w).2.
Proof.
  unfold Get. destruct (arrive w) as [ev w1]; simpl.
  destruct ev; destruct (stored w1) eqn:Hs; intros [= <- <-]; by rewrite ?Hs.
Qed.

(** A fetch that fails leaves [bucket] alone, and never fails as a
    conflict or as a wait timeout. *)
Lemma Get_err bucket w e b' w' :
  Get bucket w = (Some e, b', w') ->
  b' = bucket /\ IsConflict e = false /\ e <> ErrWaitTimeout /\
  w' = record (CallGet (inl e)) (arrive w).2.
Proof.
  unfold Get. destruct (arrive w) as [ev w1]; simpl.
  destruct ev; destruct (stored w1); intros [= <- <- <-]; done.
Qed.

Lemma Get_trace bucket w :
  exists reply, trace (Get bucket w).2 = trace w ++ [CallGet reply] /\
                output (Get bucket w).2 = output w.
Proof.
  destruct (arrive_trace w) as [Ht Ho].
  unfold Get. destruct (arrive w) as [ev w1]; simpl in *.
  destruct ev; destruct (stored w1); simpl; rewrite Ht, Ho; eauto.
Qed.

Lemma Update_trace bucket w :
  exists reply, trace (Update bucket w).2 = trace w ++ [CallUpdate bucket reply] /\
                reply = (Update bucket w).1.1 /\
                output (Update bucket w).2 = output w.
Proof.
  destruct (arrive_trace w) as [Ht Ho].
  unfold Update. destruct (arrive w) as [ev w1]; simpl in *.
  destruct ev; destruct (stored w1); simpl;
    try destruct (Nat.eqb _ _); simpl; rewrite Ht, Ho; eauto.
Qed.

(** A write never fails as a wait timeout. *)
Lemma Update_err bucket w e :
  (Update bucket w).1.1 = Some e -> e <> ErrWaitTimeout.
Proof.
  unfold Update. destruct (arrive w) as [ev w1]; simpl.
  destruct ev; destruct (stored w1); simpl;
    try destruct (Nat.eqb _ _); simpl; intros [= <-]; done.
Qed.
End Client.

(** ** The readiness evaluator *)

(** C7.  Once the fetch has delivered a snapshot, the handled predicate
    answers false exactly when the snapshot's lastHandledReconcileAt is the
    baseline, and true for every other value; it reports no error. *)
Theorem bucketReconciliationHandled_spec
    (baseline : string) (bucket snapshot : Bucket) (w w' : World) :
  Get bucket w = (None, snapshot, w') ->
  exists handled : bool,
    bucketReconciliationHandled baseline bucket w = ((handled, None), snapshot, w') /\
    (handled = false <-> LastHandledReconcileAt (Status snapshot) = baseline) /\
    (handled = true <-> LastHandledReconcileAt (Status snapshot) <> baseline).
Proof.
  intros HGet. unfold bucketReconciliationHandled. rewrite HGet.
  eexists; split; [reflexivity|].
  destruct (String.eqb_spec (LastHandledReconcileAt (Status snapshot)) baseline);
    simpl; split; split; intros; congruence.
Qed.

(** From the empty string to a timestamp: handled. *)
Lemma bucketReconciliationHandled_witness :
  let w := Samples.cluster [Samples.controller 2 [] None] in
  let snapshot := (Get zeroBucket w).1.2 in
  LastHandledReconcileAt (Status snapshot) = "2024-01-01T00:00:00Z" /\
  exists handled : bool,
    bucketReconciliationHandled "" zeroBucket w
      = ((handled, None), snapshot, (Get zeroBucket w).2) /\
    (handled = false <-> LastHandledReconcileAt (Status snapshot) = "") /\
    (handled = true <-> LastHandledReconcileAt (Status snapshot) <> "").
Proof.
  intros w snapshot. split; [reflexivity|].
  apply (bucketReconciliationHandled_spec "" zeroBucket). reflexivity.
Defined.

(** C6.  A snapshot whose observed generation is not its generation is
    not ready and not failed, whatever its conditions say: the closure
    answers (false, nil). *)
Theorem isBucketReady_stale_generation (bucket snapshot : Bucket) (w w' : World) :
  Get bucket w = (None, snapshot, w') ->
  Generation snapshot <> ObservedGeneration (Status snapshot) ->
  isBucketReady bucket w = ((false, None), snapshot, w').
Proof.
  intros HGet Hgen. unfold isBucketReady. rewrite HGet.
  destruct (Z.eqb_spec (Generation snapshot) (ObservedGeneration (Status snapshot)));
    [contradiction|reflexivity].
Qed.

(** A Ready=True condition left from generation 1 while generation 2 is
    not observed yet. *)
Lemma isBucketReady_stale_generation_witness :
  let w := Samples.cluster
    [Samples.controller 1 [Samples.ready "True" "stored artifact"] None] in
  let snapshot := (Get zeroBucket w).1.2 in
  apimeta.FindStatusCondition (Conditions (Status snapshot)) meta.ReadyCondition
    = Some (Samples.ready "True" "stored artifact") /\
  isBucketReady zeroBucket w = ((false, None), snapshot, (Get zeroBucket w).2).
Proof.
  intros w snapshot. split; [reflexivity|].
  apply isBucketReady_stale_generation; [reflexivity | simpl; lia].
Defined.

(** ** The orchestrator: a suspended resource *)

(** C8.  When the first fetch delivers a suspended resource, the command
    returns the error "resource is suspended" at once: the world is the one
    the fetch left, the only call made is that fetch, nothing was logged
    and the store still holds the fetched object. *)
Theorem reconcileSourceBucketCmdRun_suspended
    (rootArgs : RootArgs) (name : string) (rest : list string)
    (w w' : World) (snapshot : Bucket) :
  KubeClient rootArgs = None ->
  Get zeroBucket w = (None, snapshot, w') ->
  Suspend (Spec snapshot) = true ->
  reconcileSourceBucketCmdRun rootArgs (name :: rest) w
    = (Returned (Some (Errorf "resource is suspended")), snapshot, w') /\
  trace w' = trace w ++ [CallGet (inr snapshot)] /\
  output w' = output w /\
  stored w' = Some snapshot /\
  stored w' = stored (arrive w).2.
Proof.
  intros Hk HGet Hs. unfold reconcileSourceBucketCmdRun.
  rewrite Hk, HGet, Hs. split; [reflexivity|].
  destruct (Get_ok _ _ _ _ HGet) as [Hst ->].
  destruct (arrive_trace w) as [Ht Ho]. simpl in *.
  rewrite Ht, Ho. auto.
Qed.

Lemma reconcileSourceBucketCmdRun_suspended_witness :
  let suspended :=
    {| ResourceVersion := 3%nat; Generation := 1; Annotations := None;
       Spec := {| Suspend := true |}; Status := Status Samples.podinfo |} in
  let w := with_stored (Some suspended) (Samples.cluster []) in
  reconcileSourceBucketCmdRun Samples.rootArgs ["podinfo"] w
    = (Returned (Some (Errorf "resource is suspended")), suspended,
       record (CallGet (inr suspended)) w) /\
  trace (record (CallGet (inr suspended)) w) = trace w ++ [CallGet (inr suspended)] /\
  output (record (CallGet (inr suspended)) w) = output w /\
  stored (record (CallGet (inr suspended)) w) = Some suspended /\
  stored (record (CallGet (inr suspended)) w) = stored (arrive w).2.
Proof.
  intros suspended w.
  apply (reconcileSourceBucketCmdRun_suspended Samples.rootArgs "podinfo" [] w);
    reflexivity.
Defined.

(** ** retry.RetryOnConflict, one attempt at a time *)

Section Retry.
Context {St : Type} (fn : St -> option error * St).
Hypothesis fn_no_timeout : forall s, (fn s).1 <> Some ErrWaitTimeout.

(** With a step left, what [lastErr] held before does not matter. *)
Lemma OnError_lastErr (retriable : error -> bool) (k : nat) (s : St)
    (l1 l2 : option error) :
  retry.OnError_result
    (wait.ExponentialBackoff (S k) (retry.OnError_condition retriable fn) (l1, s))
  = retry.OnError_result
    (wait.ExponentialBackoff (S k) (retry.OnError_condition retriable fn) (l2, s)).
Proof.
  simpl. pose proof (fn_no_timeout s) as Hno.
  destruct (fn s) as [[e|] s1]; simpl in *; [|reflexivity].
  destruct (retriable e); [reflexivity|].
  destruct e; simpl; congruence.
Qed.

Lemma RetryOnConflict_unfold (k : nat) (s : St) :
  retry.RetryOnConflict (S k) fn s =
  let '(err, s1) := fn s in
  match err with
  | None => (None, s1)
  | Some e =>
      if IsConflict e then
        match k with
        | O => (Some e, s1)
        | S _ => retry.RetryOnConflict k fn s1
        end
      else (Some e, s1)
  end.
Proof.
  unfold retry.RetryOnConflict, retry.OnError at 1.
  simpl. pose proof (fn_no_timeout s) as Hno.
  destruct (fn s) as [[e|] s1]; simpl in *; [|reflexivity].
  destruct (IsConflict e) eqn:Hc.
  - destruct k as [|k]; [reflexivity|].
    unfold retry.OnError. apply OnError_lastErr.
  - destruct e; simpl in *; congruence.
Qed.
End Retry.

(** ** One fetch-mutate-write attempt *)

Section Attempt.
Implicit Types (bucket : Bucket) (w : World).

Lemma arrive_quiet w :
  quiet (upcoming w) = true -> stored (arrive w).2 = stored w.
Proof.
  unfold upcoming, arrive. destruct (schedule w) as [|ev rest]; [done|].
  by destruct ev.
Qed.

Lemma arrive_schedule w : schedule (arrive w).2 = tail (schedule w).
Proof.
  unfold arrive. destruct (schedule w) as [|ev rest] eqn:Hs; simpl; [done|].
  destruct ev; simpl; try done. by destruct (stored w).
Qed.

Lemma Get_frame bucket w :
  stored (Get bucket w).2 = stored (arrive w).2 /\
  schedule (Get bucket w).2 = schedule (arrive w).2.
Proof.
  unfold Get. destruct (arrive w) as [ev w1]; simpl.
  destruct ev; destruct (stored w1) eqn:Hs; simpl; by rewrite ?Hs.
Qed.

(** A refused write changes nothing in the store. *)
Lemma Update_refused bucket w e :
  (Update bucket w).1.1 = Some e ->
  stored (Update bucket w).2 = stored (arrive w).2 /\
  (Update bucket w).1.2 = bucket.
Proof.
  unfold Update. destruct (arrive w) as [ev w1]; simpl.
  destruct ev; destruct (stored w1) eqn:Hs; simpl;
    try destruct (Nat.eqb _ _); simpl; by rewrite ?Hs.
Qed.

Lemma Update_schedule bucket w :
  schedule (Update bucket w).2 = schedule (arrive w).2.
Proof.
  unfold Update. destruct (arrive w) as [ev w1]; simpl.
  destruct ev; destruct (stored w1); simpl;
    try destruct (Nat.eqb _ _); simpl; done.
Qed.

Lemma attempt_no_timeout (s : Bucket * World) :
  (curry requestBucketReconciliation_attempt s).1 <> Some ErrWaitTimeout.
Proof.
  destruct s as [bucket w]. unfold curry, requestBucketReconciliation_attempt.
  destruct (Get bucket w) as [[[e|] b1] w1] eqn:HGet; simpl.
  - apply Get_err in HGet as (_ & _ & Hne & _). congruence.
  - match goal with |- context [Update ?b ?w] =>
      pose proof (Update_err b w) as Hu; destruct (Update b w) as [[[e|] b2] w2]
    end; simpl in *; [|done].
    intros [= ->]. by apply (Hu ErrWaitTimeout).
Qed.

(** A conflict is the answer to the attempt's write, never to its fetch. *)
Lemma attempt_conflict_from_write bucket w e bucket' w' :
  requestBucketReconciliation_attempt bucket w = (Some e, bucket', w') ->
  IsConflict e = true ->
  exists snapshot sent,
    trace w' = trace w ++ [CallGet (inr snapshot); CallUpdate sent (Some e)].
Proof.
  unfold requestBucketReconciliation_attempt.
  destruct (Get bucket w) as [[[e1|] b1] w1] eqn:HGet.
  - intros [= <- <- <-] Hc. apply Get_err in HGet as (_ & Hn & _). congruence.
  - intros Hupd _. apply Get_ok in HGet as [_ ->].
    match type of Hupd with Update ?b ?w0 = _ =>
      destruct (Update_trace b w0) as (reply & Ht & Hr & _)
    end.
    rewrite Hupd in Ht, Hr. simpl in *. subst reply. rewrite Ht.
    destruct (arrive_trace w) as [-> _]. rewrite <- app_assoc. eauto.
Qed.

(** An attempt whose write is rejected stores nothing of its own: it
    uses up two events, and where these are quiet the store is as before. *)
Lemma attempt_conflict bucket w bucket' w' :
  requestBucketReconciliation_attempt bucket w = (Some ErrConflict, bucket', w') ->
  accepted_writes (trace w') = accepted_writes (trace w) /\
  schedule w' = drop 2 (schedule w) /\
  (forallb quiet (take 2 (schedule w)) = true -> stored w' = stored w).
Proof.
  intros Hatt.
  destruct (attempt_conflict_from_write _ _ _ _ _ Hatt eq_refl) as (sn & sent & Ht).
  split; [|split].
  - rewrite Ht. unfold accepted_writes. rewrite flat_map_app. simpl.
    by rewrite app_nil_r.
  - revert Hatt. unfold requestBucketReconciliation_attempt.
    pose proof (Get_frame bucket w) as [_ Hsch].
    destruct (Get bucket w) as [[[e1|] b1] w1] eqn:HGet; simpl in *.
    + intros [= -> <- <-]. apply Get_err in HGet as (_ & Hn & _). done.
    + intros Hupd.
      match type of Hupd with Update ?b ?w0 = _ =>
        pose proof (Update_schedule b w0) as Hs2
      end.
      rewrite Hupd in Hs2. simpl in Hs2.
      rewrite Hs2, arrive_schedule, Hsch, arrive_schedule.
      by destruct (schedule w) as [|? [|? ?]].
  - intros Hq. revert Hatt. unfold requestBucketReconciliation_attempt.
    pose proof (Get_frame bucket w) as [Hst Hsch].
    destruct (Get bucket w) as [[[e1|] b1] w1] eqn:HGet; simpl in *.
    + intros [= -> <- <-]. apply Get_err in HGet as (_ & Hn & _). done.
    + intros Hupd.
      match type of Hupd with Update ?b ?w0 = _ =>
        pose proof (Update_refused b w0 ErrConflict) as Hr
      end.
      rewrite Hupd in Hr. destruct (Hr eq_refl) as [Hr1 _]. simpl in Hr1.
      rewrite arrive_schedule in Hsch.
      rewrite Hr1, arrive_quiet, Hst, arrive_quiet; [done| |].
      * unfold upcoming. destruct (schedule w) as [|e1 ?]; [done|].
        simpl in Hq. by apply andb_prop in Hq as [-> _].
      * unfold upcoming. rewrite Hsch.
        destruct (schedule w) as [|e1 [|e2 ?]]; [done..|].
        simpl in Hq |- *. apply andb_prop in Hq as [_ Hq].
        by apply andb_prop in Hq as [-> _].
Qed.
End Attempt.

(** ** The trigger mutator: exhausted retries *)

Lemma forallb_take_2 {A : Type} (p : A -> bool) (m : nat) (l : list A) :
  forallb p (take (2 + m) l) = true ->
  forallb p (take 2 l) = true /\ forallb p (take m (drop 2 l)) = true.
Proof.
  destruct l as [|a1 [|a2 rest]]; simpl; rewrite ?take_nil; simpl.
  - done.
  - by rewrite andb_true_r.
  - intros H. apply andb_prop in H as [-> H]. by apply andb_prop in H as [-> H].
Qed.

Lemma RetryOnConflict_exhausted (n : nat) (bucket : Bucket) (w : World) :
  every_write_conflicts (S n) bucket w ->
  exists bucket' w',
    uncurry (retry.RetryOnConflict (S n) (curry requestBucketReconciliation_attempt))
      bucket w = (Some ErrConflict, bucket', w') /\
    accepted_writes (trace w') = accepted_writes (trace w) /\
    (forallb quiet (take (2 * S n) (schedule w)) = true -> stored w' = stored w).
Proof.
  revert bucket w. induction n as [|n IH]; intros bucket w Hall.
  - simpl in Hall.
    destruct (requestBucketReconciliation_attempt bucket w) as [[err b1] w1] eqn:Hatt.
    destruct Hall as [-> _].
    exists b1, w1. unfold uncurry.
    rewrite (RetryOnConflict_unfold _ attempt_no_timeout). unfold curry at 1.
    rewrite Hatt. simpl.
    destruct (attempt_conflict _ _ _ _ Hatt) as (Ha & _ & Hq). auto.
  - change (every_write_conflicts (S (S n)) bucket w) with
      (let '(err, bucket', w') := requestBucketReconciliation_attempt bucket w in
       err = Some ErrConflict /\ every_write_conflicts (S n) bucket' w') in Hall.
    destruct (requestBucketReconciliation_attempt bucket w) as [[err b1] w1] eqn:Hatt.
    destruct Hall as [-> Hall].
    destruct (IH b1 w1 Hall) as (b' & w' & Hrun & Hacc & Hq).
    destruct (attempt_conflict _ _ _ _ Hatt) as (Ha1 & Hs1 & Hq1).
    exists b', w'. unfold uncurry in *.
    rewrite (RetryOnConflict_unfold _ attempt_no_timeout). unfold curry at 1.
    rewrite Hatt. simpl IsConflict. cbv iota.
    split; [exact Hrun|]. split; [congruence|].
    intros Hquiet.
    replace (2 * S (S n))%nat with (2 + 2 * S n)%nat in Hquiet by lia.
    apply forallb_take_2 in Hquiet as [H2 Hrest].
    rewrite Hq, Hq1; [done..|]. by rewrite Hs1.
Qed.

(** What an event does to the store depends on the store and on the
    schedule only. *)
Lemma arrive_same (w a : World) :
  stored w = stored a -> schedule w = schedule a ->
  stored (arrive w).2 = stored (arrive a).2 /\
  schedule (arrive w).2 = schedule (arrive a).2.
Proof.
  intros Hst Hsch. unfold arrive. rewrite Hsch.
  destruct (schedule a) as [|ev rest] eqn:Ha; simpl; [by rewrite Ha|].
  destruct ev; simpl; try done. rewrite Hst.
  destruct (stored a) eqn:Hsa; simpl; by rewrite ?Hst, ?Hsa.
Qed.

Lemma elapse_same (n : nat) (w a : World) :
  stored w = stored a -> schedule w = schedule a ->
  stored (elapse n w) = stored (elapse n a) /\
  schedule (elapse n w) = schedule (elapse n a).
Proof.
  intros Hst Hsch. induction n as [|n [IH1 IH2]]; [done|].
  unfold elapse in *. simpl. by apply arrive_same.
Qed.

Lemma elapse_add (p q : nat) (w : World) :
  elapse (p + q) w = elapse p (elapse q w).
Proof. unfold elapse. apply Nat.iter_add. Qed.

(** An attempt whose write is rejected leaves the store as the two events
    it met made it. *)
Lemma attempt_conflict_elapse (bucket bucket' : Bucket) (w w' : World) :
  requestBucketReconciliation_attempt bucket w = (Some ErrConflict, bucket', w') ->
  stored w' = stored (elapse 2 w) /\ schedule w' = schedule (elapse 2 w).
Proof.
  unfold requestBucketReconciliation_attempt.
  pose proof (Get_frame bucket w) as [Hst Hsch].
  destruct (Get bucket w) as [[[e1|] b1] w1] eqn:HGet; simpl in *.
  - intros [= -> <- <-]. apply Get_err in HGet as (_ & Hn & _). done.
  - intros Hupd.
    match type of Hupd with Update ?b ?w0 = _ =>
      pose proof (Update_refused b w0 ErrConflict) as Hr;
      pose proof (Update_schedule b w0) as Hs2
    end.
    rewrite Hupd in Hr, Hs2. destruct (Hr eq_refl) as [Hr1 _]. simpl in Hr1, Hs2.
    rewrite Hr1, Hs2. exact (arrive_same w1 (arrive w).2 Hst Hsch).
Qed.

Lemma RetryOnConflict_exhausted_elapse (n : nat) (bucket bucket' : Bucket)
    (w w' : World) (r : option error) :
  every_write_conflicts (S n) bucket w ->
  uncurry (retry.RetryOnConflict (S n) (curry requestBucketReconciliation_attempt))
    bucket w = (r, bucket', w') ->
  stored w' = stored (elapse (2 * S n) w) /\
  schedule w' = schedule (elapse (2 * S n) w).
Proof.
  revert bucket w. induction n as [|n IH]; intros bucket w Hall.
  - simpl in Hall.
    destruct (requestBucketReconciliation_attempt bucket w) as [[err b1] w1] eqn:Hatt.
    destruct Hall as [-> _]. unfold uncurry.
    rewrite (RetryOnConflict_unfold _ attempt_no_timeout). unfold curry at 1.
    rewrite Hatt. simpl. intros [= _ _ <-].
    exact (attempt_conflict_elapse _ _ _ _ Hatt).
  - change (every_write_conflicts (S (S n)) bucket w) with
      (let '(err, bucket', w') := requestBucketReconciliation_attempt bucket w in
       err = Some ErrConflict /\ every_write_conflicts (S n) bucket' w') in Hall.
    destruct (requestBucketReconciliation_attempt bucket w) as [[err b1] w1] eqn:Hatt.
    destruct Hall as [-> Hall]. unfold uncurry in *.
    rewrite (RetryOnConflict_unfold _ attempt_no_timeout). unfold curry at 1.
    rewrite Hatt. simpl IsConflict. cbv iota. intros Hrun.
    destruct (IH b1 w1 Hall Hrun) as [Hst Hsch].
    destruct (attempt_conflict_elapse _ _ _ _ Hatt) as [Hst1 Hsch1].
    destruct (elapse_same (2 * S n) w1 (elapse 2 w) Hst1 Hsch1) as [He1 He2].
    replace (2 * S (S n))%nat with (2 * S n + 2)%nat by lia.
    rewrite elapse_add. by rewrite Hst, Hsch.
Qed.

(** C4, as the code has it.  When each of the four write attempts that
    [retry.DefaultBackoff] allows is rejected as a conflict,
    requestBucketReconciliation returns the conflict error and none of its
    writes was stored: the stored object is what the eight events the call
    met made of the object from before the call, and it is that very
    object where no other actor wrote it during the call. *)
Theorem requestBucketReconciliation_conflict_exhausted (bucket : Bucket) (w : World) :
  every_write_conflicts retry.DefaultBackoff_Steps bucket w ->
  exists bucket' w',
    requestBucketReconciliation bucket w = (Some ErrConflict, bucket', w') /\
    accepted_writes (trace w') = accepted_writes (trace w) /\
    stored w' = stored (elapse (2 * retry.DefaultBackoff_Steps) w) /\
    (forallb quiet (take (2 * retry.DefaultBackoff_Steps) (schedule w)) = true ->
     stored w' = stored w).
Proof.
  intros Hall. unfold requestBucketReconciliation.
  destruct (RetryOnConflict_exhausted 3 bucket w Hall) as (b' & w' & Hrun & Hacc & Hq).
  destruct (RetryOnConflict_exhausted_elapse 3 _ _ _ _ _ Hall Hrun) as [Hst _].
  exists b', w'. auto.
Qed.

(** The controller writes its status between the fetch and the write of
    each attempt: the store ends up as the controller left it. *)
Lemma requestBucketReconciliation_conflict_exhausted_witness :
  let busy := Samples.controller 1 [Samples.ready "Unknown" "reconciliation in progress"]
                None in
  let w := Samples.cluster [Idle; busy; Idle; busy; Idle; busy; Idle; busy] in
  exists bucket' w',
    requestBucketReconciliation zeroBucket w = (Some ErrConflict, bucket', w') /\
    accepted_writes (trace w') = [] /\
    stored w' = stored (elapse 8 w) /\
    option_map (fun b => Annotations b) (stored w') = Some None.
Proof.
  intros busy w.
  destruct (requestBucketReconciliation_conflict_exhausted zeroBucket w)
    as (b' & w' & Hrun & Hacc & Hst & _).
  - vm_compute. repeat split.
  - exists b', w'. split; [exact Hrun|]. split; [exact Hacc|]. split; [exact Hst|].
    rewrite Hst. vm_compute. reflexivity.
Defined.

(** C4, as stated, fails: the conflicts of the four attempts come from
    another writer (here the controller, writing its status between each
    fetch and write), so the stored object is not the one from before the
    call, although nothing of this call was stored. *)
Lemma requestBucketReconciliation_conflict_exhausted_store_changed :
  ~ (forall (bucket : Bucket) (w : World),
        every_write_conflicts retry.DefaultBackoff_Steps bucket w ->
        exists bucket' w',
          requestBucketReconciliation bucket w = (Some ErrConflict, bucket', w') /\
          stored w' = stored w).
Proof.
  intros Hclaim.
  pose (busy := Samples.controller 1
                  [Samples.ready "Unknown" "reconciliation in progress"] None).
  pose (w := Samples.cluster [Idle; busy; Idle; busy; Idle; busy; Idle; busy]).
  destruct (Hclaim zeroBucket w) as (b' & w' & Hrun & Hst).
  - vm_compute. repeat split.
  - assert (w' = (requestBucketReconciliation zeroBucket w).2) as ->
      by (by rewrite Hrun).
    vm_compute in Hst. discriminate Hst.
Qed.

(** ** The trigger mutator: what is retried *)

Lemma attempt_trace_bound (bucket : Bucket) (w : World) :
  (length (trace (requestBucketReconciliation_attempt bucket w).2)
   <= length (trace w) + 2)%nat.
Proof.
  unfold requestBucketReconciliation_attempt.
  destruct (Get_trace bucket w) as (reply & Ht & _).
  destruct (Get bucket w) as [[[e|] b1] w1]; simpl in *.
  - rewrite Ht, length_app. simpl. lia.
  - match goal with |- context [Update ?b ?w0] =>
      destruct (Update_trace b w0) as (r2 & Ht2 & _)
    end.
    rewrite Ht2, Ht, !length_app. simpl. lia.
Qed.

Lemma RetryOnConflict_trace_bound (n : nat) (bucket : Bucket) (w : World) :
  (length (trace (uncurry (retry.RetryOnConflict n
                             (curry requestBucketReconciliation_attempt)) bucket w).2)
   <= length (trace w) + 2 * n)%nat.
Proof.
  revert bucket w. induction n as [|n IH]; intros bucket w.
  - simpl. lia.
  - unfold uncurry in *.
    rewrite (RetryOnConflict_unfold _ attempt_no_timeout). unfold curry at 1.
    pose proof (attempt_trace_bound bucket w) as Hb.
    destruct (requestBucketReconciliation_attempt bucket w) as [[[e|] b1] w1];
      simpl in *; [|lia].
    destruct (IsConflict e); simpl; [|lia].
    destruct n as [|n]; simpl; [lia|].
    specialize (IH b1 w1). lia.
Qed.

(** The first attempt decides: success and every error but a conflict end
    the call, a conflict leaves three more attempts. *)
Lemma requestBucketReconciliation_unfold (bucket : Bucket) (w : World) :
  requestBucketReconciliation bucket w =
  let '(err, b1, w1) := requestBucketReconciliation_attempt bucket w in
  match err with
  | None => (None, b1, w1)
  | Some e =>
      if IsConflict e then
        uncurry (retry.RetryOnConflict 3 (curry requestBucketReconciliation_attempt)) b1 w1
      else (Some e, b1, w1)
  end.
Proof.
  unfold requestBucketReconciliation, uncurry.
  change retry.DefaultBackoff_Steps with 4%nat.
  rewrite (RetryOnConflict_unfold _ attempt_no_timeout). unfold curry at 1.
  destruct (requestBucketReconciliation_attempt bucket w) as [[[e|] b1] w1];
    [|reflexivity].
  by destruct (IsConflict e).
Qed.

(** C5.  requestBucketReconciliation runs one fetch-mutate-write attempt.
    Success, and every error that is not a conflict, ends the call there,
    with the world as that one attempt left it; an error of the fetch
    (NotFound included) ends it after that single call.  Only a conflict
    starts the sequence again, a conflict is always the answer to the
    write, and the whole call makes at most four attempts (eight calls). *)
Theorem requestBucketReconciliation_retries_only_conflicts (bucket : Bucket) (w : World) :
  (let '(err, bucket1, w1) := requestBucketReconciliation_attempt bucket w in
   match err with
   | None => requestBucketReconciliation bucket w = (None, bucket1, w1)
   | Some e =>
       if IsConflict e then
         (exists snapshot sent,
             trace w1 = trace w ++ [CallGet (inr snapshot); CallUpdate sent (Some e)]) /\
         requestBucketReconciliation bucket w =
           uncurry (retry.RetryOnConflict (retry.DefaultBackoff_Steps - 1)
                      (curry requestBucketReconciliation_attempt)) bucket1 w1
       else requestBucketReconciliation bucket w = (Some e, bucket1, w1)
   end) /\
  (forall e bucket1 w1,
      Get bucket w = (Some e, bucket1, w1) ->
      requestBucketReconciliation bucket w = (Some e, bucket, w1) /\
      trace w1 = trace w ++ [CallGet (inl e)]) /\
  (length (trace (requestBucketReconciliation bucket w).2)
   <= length (trace w) + 2 * retry.DefaultBackoff_Steps)%nat.
Proof.
  pose proof (requestBucketReconciliation_unfold bucket w) as Hunf.
  split; [|split].
  - rewrite Hunf.
    destruct (requestBucketReconciliation_attempt bucket w) as [[[e|] b1] w1] eqn:Hatt;
      [|reflexivity].
    destruct (IsConflict e) eqn:Hc; [|reflexivity].
    split; [|reflexivity]. exact (attempt_conflict_from_write _ _ _ _ _ Hatt Hc).
  - intros e b1 w1 HGet. rewrite Hunf.
    unfold requestBucketReconciliation_attempt. rewrite HGet.
    apply Get_err in HGet as (-> & -> & _ & ->). split; [reflexivity|].
    simpl. by destruct (arrive_trace w) as [-> _].
  - apply RetryOnConflict_trace_bound.
Qed.

(** A resource that does not exist: NotFound, after one fetch and no write. *)
Lemma requestBucketReconciliation_retries_only_conflicts_witness :
  let w := with_stored None (Samples.cluster []) in
  requestBucketReconciliation zeroBucket w
    = (Some ErrNotFound, zeroBucket, record (CallGet (inl ErrNotFound)) w) /\
  trace (record (CallGet (inl ErrNotFound)) w) = trace w ++ [CallGet (inl ErrNotFound)].
Proof.
  intros w.
  destruct (requestBucketReconciliation_retries_only_conflicts zeroBucket w)
    as (_ & Hfetch & _).
  apply (Hfetch ErrNotFound zeroBucket). reflexivity.
Defined.

(** ** The trigger mutator: a resource without annotations *)

Lemma arrive_event (w : World) : (arrive w).1 = upcoming w.
Proof. unfold arrive, upcoming. by destruct (schedule w). Qed.

Lemma calm_quiet (e : Event) : calm e = true -> quiet e = true.
Proof. by destruct e. Qed.

(** A write of a current copy that nothing stands in the way of is stored. *)
Lemma Update_accepted (bucket s : Bucket) (w : World) :
  calm (upcoming w) = true ->
  stored w = Some s ->
  ResourceVersion s = ResourceVersion bucket ->
  let bucket' := with_ResourceVersion (S (ResourceVersion s)) bucket in
  Update bucket w
  = (None, bucket',
     record (CallUpdate bucket None) (with_stored (Some bucket') (arrive w).2)).
Proof.
  intros Hcalm Hst Hrv. unfold Update.
  pose proof (arrive_event w) as Hev.
  pose proof (arrive_quiet w (calm_quiet _ Hcalm)) as Hq.
  destruct (arrive w) as [ev w1]; simpl in *. subst ev.
  rewrite Hq, Hst, Hrv, Nat.eqb_refl.
  by destruct (upcoming w).
Qed.

(** C9.  On a resource whose annotations map is nil, a fetch-mutate-write
    that nothing disturbs succeeds at the first attempt: the stored object
    is the fetched one under its next resource version with a fresh map
    whose only entry is the reconcile request, set to the current time. *)
Theorem requestBucketReconciliation_nil_annotations
    (bucket snapshot : Bucket) (w w1 : World) :
  Get bucket w = (None, snapshot, w1) ->
  Annotations snapshot = None ->
  calm (upcoming w1) = true ->
  exists (annotated : Bucket) (w' : World),
    requestBucketReconciliation bucket w = (None, annotated, w') /\
    stored w' = Some annotated /\
    Annotations annotated = Some {[ meta.ReconcileRequestAnnotation := now w1 ]} /\
    annotated = with_ResourceVersion (S (ResourceVersion snapshot))
                  (with_Annotations (Annotations annotated) snapshot) /\
    accepted_writes (trace w') =
      accepted_writes (trace w) ++ [with_Annotations (Annotations annotated) snapshot].
Proof.
  intros HGet Hnil Hcalm.
  rewrite requestBucketReconciliation_unfold.
  unfold requestBucketReconciliation_attempt. rewrite HGet, Hnil.
  destruct (Get_ok _ _ _ _ HGet) as [Hst Hw1].
  rewrite (Update_accepted
             (with_Annotations (Some {[ meta.ReconcileRequestAnnotation := now w1 ]}) snapshot)
             snapshot w1 Hcalm Hst eq_refl).
  do 2 eexists. split; [reflexivity|]. simpl.
  repeat split.
  rewrite Hw1 at 2. simpl.
  destruct (arrive_trace w1) as [-> _]. rewrite Hw1. simpl.
  destruct (arrive_trace w) as [-> _].
  unfold accepted_writes. rewrite !flat_map_app. simpl. by rewrite app_nil_r.
Qed.

Lemma requestBucketReconciliation_nil_annotations_witness :
  exists (annotated : Bucket) (w' : World),
    requestBucketReconciliation zeroBucket (Samples.cluster []) = (None, annotated, w') /\
    stored w' = Some annotated /\
    Annotations annotated =
      Some {[ meta.ReconcileRequestAnnotation := "2024-01-01T00:00:00.000000001Z" ]} /\
    annotated = with_ResourceVersion 8
                  (with_Annotations (Annotations annotated) Samples.podinfo) /\
    accepted_writes (trace w') =
      [with_Annotations (Annotations annotated) Samples.podinfo].
Proof.
  apply (requestBucketReconciliation_nil_annotations
           zeroBucket Samples.podinfo (Samples.cluster [])
           (Get zeroBucket (Samples.cluster [])).2); reflexivity.
Defined.

(** ** The two phases of the command, by the calls they make *)

Section Phases.
Implicit Types (bucket final : Bucket) (w : World).

Lemma attempt_trace bucket w :
  exists calls,
    trace (requestBucketReconciliation_attempt bucket w).2 = trace w ++ calls /\
    output (requestBucketReconciliation_attempt bucket w).2 = output w /\
    ((requestBucketReconciliation_attempt bucket w).1.1 = None ->
     exists snapshot sent, calls = [CallGet (inr snapshot); CallUpdate sent None]).
Proof.
  unfold requestBucketReconciliation_attempt.
  destruct (Get_trace bucket w) as (reply & Ht & Ho).
  destruct (Get bucket w) as [[[e|] b1] w1] eqn:HGet; simpl in *.
  - exists [CallGet reply]. by rewrite Ht, Ho.
  - apply Get_ok in HGet as [_ Hw1].
    match goal with |- context [Update ?b ?w0] =>
      destruct (Update_trace b w0) as (r2 & Ht2 & Hr2 & Ho2);
      exists [CallGet reply; CallUpdate b r2]
    end.
    rewrite Ht2, Ho2, Ho, Ht, <- app_assoc. repeat split.
    intros Hnone. rewrite Hnone in Hr2. subst r2.
    rewrite Hw1 in Ht. simpl in Ht. destruct (arrive_trace w) as [Hta _].
    rewrite Hta in Ht. apply app_inv_head in Ht. injection Ht as <-. eauto.
Qed.

(** A trigger that succeeds ends with the accepted write. *)
Lemma RetryOnConflict_succeeded (n : nat) bucket w bucket' w' :
  uncurry (retry.RetryOnConflict (S n) (curry requestBucketReconciliation_attempt))
    bucket w = (None, bucket', w') ->
  exists calls sent,
    trace w' = trace w ++ calls ++ [CallUpdate sent None] /\ output w' = output w.
Proof.
  revert bucket w. induction n as [|n IH]; intros bucket w; unfold uncurry in *;
    rewrite (RetryOnConflict_unfold _ attempt_no_timeout); unfold curry at 1;
    destruct (attempt_trace bucket w) as (calls & Ht & Ho & Hok);
    destruct (requestBucketReconciliation_attempt bucket w) as [[[e|] b1] w1];
    simpl in *.
  - by destruct (IsConflict e).
  - intros [= <- <-]. destruct (Hok eq_refl) as (sn & sent & ->).
    exists [CallGet (inr sn)], sent. by rewrite Ht, Ho.
  - destruct (IsConflict e); [|done].
    intros Hrun. destruct (IH b1 w1 Hrun) as (calls' & sent & Ht' & Ho').
    exists (calls ++ calls'), sent. by rewrite Ht', Ho', Ht, Ho, <- !app_assoc.
  - intros [= <- <-]. destruct (Hok eq_refl) as (sn & sent & ->).
    exists [CallGet (inr sn)], sent. by rewrite Ht, Ho.
Qed.

(** One evaluation of the handled predicate. *)
Lemma handled_step (baseline : string) bucket w :
  let '((ok, err), bucket1, w1) := bucketReconciliationHandled baseline bucket w in
  err = None ->
  trace w1 = trace w ++ [CallGet (inr bucket1)] /\
  stored w1 = Some bucket1 /\ output w1 = output w /\
  (ok = true -> LastHandledReconcileAt (Status bucket1) <> baseline) /\
  (ok = false -> LastHandledReconcileAt (Status bucket1) = baseline).
Proof.
  unfold bucketReconciliationHandled.
  destruct (Get bucket w) as [[[e|] b1] w1] eqn:HGet; [done|].
  intros _. destruct (Get_ok _ _ _ _ HGet) as [Hst ->].
  destruct (arrive_trace w) as [Ht Ho]. simpl. rewrite Ht, Ho.
  repeat split; try done;
    destruct (String.eqb_spec (LastHandledReconcileAt (Status b1)) baseline);
    simpl; congruence.
Qed.

Lemma WaitFor_handled (baseline : string) (n : nat) bucket w final w' :
  uncurry (wait.WaitFor n (curry (bucketReconciliationHandled baseline))) bucket w
    = (None, final, w') ->
  exists polls,
    trace w' = trace w ++ polls ++ [CallGet (inr final)] /\
    Forall (unhandled_fetch baseline) polls /\
    LastHandledReconcileAt (Status final) <> baseline /\
    stored w' = Some final /\ output w' = output w.
Proof.
  revert bucket w. induction n as [|n IH]; intros bucket w; unfold uncurry in *;
    simpl;
    pose proof (handled_step baseline bucket w) as Hstep;
    destruct (bucketReconciliationHandled baseline bucket w) as [[[ok [e|]] b1] w1];
    try done; destruct (Hstep eq_refl) as (Ht & Hst & Ho & Hyes & Hno);
    destruct ok; try done.
  - intros [= <- <-]. exists []. simpl. auto.
  - intros [= <- <-]. exists []. simpl. auto.
  - intros Hrun. destruct (IH b1 w1 Hrun) as (polls & Ht' & Hall & Hne & Hst' & Ho').
    exists (CallGet (inr b1) :: polls). rewrite Ht', Ht, Ho', Ho, <- app_assoc.
    repeat split; try done. constructor; [|done]. exists b1. auto.
Qed.

(** The wait ends well only on the first fetch whose snapshot no longer
    carries the baseline; that snapshot is what [bucket] then holds. *)
Lemma handled_wait_succeeded (rootArgs : RootArgs) (baseline : string)
    bucket w final w' :
  handled_wait rootArgs baseline bucket w = (None, final, w') ->
  exists polls,
    trace w' = trace w ++ polls ++ [CallGet (inr final)] /\
    Forall (unhandled_fetch baseline) polls /\
    LastHandledReconcileAt (Status final) <> baseline /\
    stored w' = Some final /\ output w' = output w.
Proof.
  unfold handled_wait, uncurry, wait.PollImmediate. unfold curry at 1.
  pose proof (handled_step baseline bucket w) as Hstep.
  destruct (bucketReconciliationHandled baseline bucket w) as [[[ok [e|]] b1] w1];
    [done|].
  destruct (Hstep eq_refl) as (Ht & Hst & Ho & Hyes & Hno). destruct ok.
  - intros [= <- <-]. exists []. simpl. auto.
  - intros Hrun.
    destruct (WaitFor_handled baseline (ticks rootArgs) b1 w1 final w')
      as (polls & Ht' & Hall & Hne & Hst' & Ho').
    { unfold uncurry. exact Hrun. }
    exists (CallGet (inr b1) :: polls). rewrite Ht', Ht, Ho', Ho, <- app_assoc.
    repeat split; try done. constructor; [|done]. exists b1. auto.
Qed.
End Phases.

(** ** The orchestrator, end to end *)

(** What the command does once its wait has ended well: lines 95 to 101. *)
Lemma reconcileSourceBucketCmdRun_after_wait
    (rootArgs : RootArgs) (name : string) (rest : list string)
    (w w0 w1 w2 : World) (first annotated final : Bucket) :
  KubeClient rootArgs = None ->
  Get zeroBucket w = (None, first, w0) ->
  Suspend (Spec first) = false ->
  requestBucketReconciliation first (before_request rootArgs name w0)
    = (None, annotated, w1) ->
  handled_wait rootArgs (LastHandledReconcileAt (Status first)) annotated (before_wait w1)
    = (None, final, w2) ->
  reconcileSourceBucketCmdRun rootArgs (name :: rest) w =
    let w3 := log (Successf "Bucket source reconciliation completed") w2 in
    if apimeta.IsStatusConditionFalse (Conditions (Status final)) meta.ReadyCondition
    then (Returned (Some (Errorf "Bucket source reconciliation failed")), final, w3)
    else match Status_Artifact (Status final) with
         | None => (Panicked, final, w3)
         | Some artifact =>
             (Returned None, final,
              log (Successf ("fetched revision " +:+ Revision artifact)) w3)
         end.
Proof.
  intros Hk HGet Hs Hreq Hwait. unfold reconcileSourceBucketCmdRun.
  unfold before_request in Hreq. unfold handled_wait, before_wait in Hwait.
  rewrite Hk, HGet, Hs, Hreq, Hwait. reflexivity.
Qed.

(** A call that returns nil went through every stage. *)
Lemma reconcileSourceBucketCmdRun_succeeded_inv
    (rootArgs : RootArgs) (args : list string) (w w' : World) (final : Bucket) :
  reconcileSourceBucketCmdRun rootArgs args w = (Returned None, final, w') ->
  exists name rest w0 w1 w2 first annotated,
    args = name :: rest /\
    KubeClient rootArgs = None /\
    Get zeroBucket w = (None, first, w0) /\
    Suspend (Spec first) = false /\
    requestBucketReconciliation first (before_request rootArgs name w0)
      = (None, annotated, w1) /\
    handled_wait rootArgs (LastHandledReconcileAt (Status first)) annotated
      (before_wait w1) = (None, final, w2).
Proof.
  unfold reconcileSourceBucketCmdRun, handled_wait, before_wait, before_request.
  destruct args as [|name rest]; [done|].
  destruct (KubeClient rootArgs) eqn:Hk; [done|].
  destruct (Get zeroBucket w) as [[[e|] first] w0] eqn:HGet; [done|].
  destruct (Suspend (Spec first)) eqn:Hs; [done|].
  destruct (requestBucketReconciliation first _) as [[[e|] annotated] w1] eqn:Hreq;
    [done|].
  destruct (uncurry _ annotated _) as [[[e|] final'] w2] eqn:Hwait; [done|].
  destruct (apimeta.IsStatusConditionFalse _ _); [done|].
  destruct (Status_Artifact (Status final')); [|done].
  intros [= <- <-]. by exists name, rest, w0, w1, w2, first, annotated.
Qed.

(** C10.  When the wait ends well, [bucket] holds the snapshot of the
    wait's last fetch, which is also the last call of the whole invocation:
    the command decides between failure and success on that snapshot and
    reports its artifact revision, and only writes to the log after the
    wait. *)
Theorem reconcileSourceBucketCmdRun_evaluates_last_fetch
    (rootArgs : RootArgs) (name : string) (rest : list string)
    (w w0 w1 w2 : World) (first annotated final : Bucket) :
  KubeClient rootArgs = None ->
  Get zeroBucket w = (None, first, w0) ->
  Suspend (Spec first) = false ->
  requestBucketReconciliation first (before_request rootArgs name w0)
    = (None, annotated, w1) ->
  handled_wait rootArgs (LastHandledReconcileAt (Status first)) annotated (before_wait w1)
    = (None, final, w2) ->
  (exists calls, trace w2 = calls ++ [CallGet (inr final)]) /\
  stored w2 = Some final /\
  exists (outcome : Outcome) (w' : World),
    reconcileSourceBucketCmdRun rootArgs (name :: rest) w = (outcome, final, w') /\
    trace w' = trace w2 /\ stored w' = stored w2 /\ schedule w' = schedule w2 /\
    outcome =
      (if apimeta.IsStatusConditionFalse (Conditions (Status final)) meta.ReadyCondition
       then Returned (Some (Errorf "Bucket source reconciliation failed"))
       else match Status_Artifact (Status final) with
            | Some _ => Returned None
            | None => Panicked
            end) /\
    (outcome = Returned None ->
     exists artifact,
       Status_Artifact (Status final) = Some artifact /\
       output w' = output w2 ++
         [Successf "Bucket source reconciliation completed";
          Successf ("fetched revision " +:+ Revision artifact)]).
Proof.
  intros Hk HGet Hs Hreq Hwait.
  rewrite (reconcileSourceBucketCmdRun_after_wait _ _ rest _ _ _ _ _ _ _
             Hk HGet Hs Hreq Hwait).
  destruct (handled_wait_succeeded _ _ _ _ _ _ Hwait) as (polls & Ht & _ & _ & Hst & _).
  split; [exists (trace (before_wait w1) ++ polls); by rewrite Ht, <- app_assoc|].
  split; [exact Hst|]. simpl.
  destruct (apimeta.IsStatusConditionFalse _ _).
  - do 2 eexists. split; [reflexivity|]. simpl. repeat split. done.
  - destruct (Status_Artifact (Status final)) as [artifact|].
    + do 2 eexists. split; [reflexivity|]. simpl. repeat split.
      intros _. exists artifact. by rewrite <- app_assoc.
    + do 2 eexists. split; [reflexivity|]. simpl. repeat split. done.
Qed.

Lemma reconcileSourceBucketCmdRun_evaluates_last_fetch_witness :
  let w := Samples.cluster
    [Idle; Idle; Idle; Idle;
     Samples.controller 2 [Samples.ready "True" "stored artifact"]
       (Some {| Revision := "sha256:2b5c" |})] in
  exists (final : Bucket) (w' : World),
    reconcileSourceBucketCmdRun Samples.rootArgs ["podinfo"] w
      = (Returned None, final, w') /\
    (exists calls, trace w' = calls ++ [CallGet (inr final)]) /\
    last (output w') = Some (Successf "fetched revision sha256:2b5c").
Proof.
  intros w.
  pose (r0 := Get zeroBucket w).
  pose (r1 := requestBucketReconciliation r0.1.2 (before_request Samples.rootArgs "podinfo" r0.2)).
  pose (r2 := handled_wait Samples.rootArgs (LastHandledReconcileAt (Status r0.1.2))
                r1.1.2 (before_wait r1.2)).
  destruct (reconcileSourceBucketCmdRun_evaluates_last_fetch
              Samples.rootArgs "podinfo" [] w r0.2 r1.2 r2.2 r0.1.2 r1.1.2 r2.1.2)
    as (Hlast & _ & outcome & w' & Hrun & Ht & _ & _ & Hout & Hrev);
    [vm_compute; reflexivity..|].
  assert (outcome = Returned None) as -> by (rewrite Hout; vm_compute; reflexivity).
  exists r2.1.2, w'. split; [exact Hrun|]. split; [by rewrite Ht|].
  destruct (Hrev eq_refl) as (artifact & Ha & ->).
  vm_compute in Ha. injection Ha as <-. vm_compute. reflexivity.
Defined.




(** C2 at Scenario B.  The controller reports Ready=False with the message
    "fetch failed"; the command returns the fixed text "Bucket source
    reconciliation failed", which does not contain the message, whereas
    [isBucketReady] on the same snapshot returns the message as its error. *)
Theorem reconcileSourceBucketCmdRun_drops_failure_message :
  let w := Samples.cluster
    [Idle; Idle; Idle; Idle;
     Samples.controller 2 [Samples.ready "False" "fetch failed"] None] in
  exists (final : Bucket) (w' : World) (text : string),
    reconcileSourceBucketCmdRun Samples.rootArgs ["podinfo"] w
      = (Returned (Some (Errorf "Bucket source reconciliation failed")), final, w') /\
    apimeta.FindStatusCondition (Conditions (Status final)) meta.ReadyCondition
      = Some (Samples.ready "False" "fetch failed") /\
    Error (Errorf "Bucket source reconciliation failed") = Some text /\
    Contains text "fetch failed" = false /\
    (isBucketReady final w').1.1 = (false, Some (Errorf "fetch failed")).
Proof.
  intros w. do 3 eexists. vm_compute. repeat split.
Qed.

(** C3 at a snapshot without artifact.  The controller has taken up the
    request and reports Ready=Unknown while it works, with no artifact yet;
    the command goes on to read [bucket.Status.Artifact.Revision] and the
    call ends in a nil pointer dereference. *)
Theorem reconcileSourceBucketCmdRun_nil_artifact_panics :
  let w := Samples.cluster
    [Idle; Idle; Idle; Idle;
     Samples.controller 1 [Samples.ready "Unknown" "reconciliation in progress"] None] in
  exists (final : Bucket) (w' : World),
    reconcileSourceBucketCmdRun Samples.rootArgs ["podinfo"] w = (Panicked, final, w') /\
    Status_Artifact (Status final) = None /\
    apimeta.IsStatusConditionFalse (Conditions (Status final)) meta.ReadyCondition = false /\
    last (output w') = Some (Successf "Bucket source reconciliation completed").
Proof.
  intros w. do 2 eexists. vm_compute. repeat split.
Qed.

(** ** The trigger mutator: what a call stores *)

Section Stored.
Implicit Types (bucket snapshot : Bucket) (w : World).

Lemma accepted_writes_app (a b : list Call) :
  accepted_writes (a ++ b) = accepted_writes a ++ accepted_writes b.
Proof. unfold accepted_writes. apply flat_map_app. Qed.

Lemma attempt_eq bucket w :
  requestBucketReconciliation_attempt bucket w =
  let '(err, b, w1) := Get bucket w in
  match err with
  | Some e => (Some e, b, w1)
  | None => Update (requested (now w1) b) w1
  end.
Proof.
  unfold requestBucketReconciliation_attempt, requested.
  destruct (Get bucket w) as [[[e|] b] w1]; [reflexivity|].
  destruct (Annotations b); simpl; [reflexivity|].
  by rewrite insert_empty.
Qed.

(** A write that is accepted stores what was sent, under the next version. *)
Lemma Update_ok bucket w bucket' w' :
  Update bucket w = (None, bucket', w') ->
  bucket' = with_ResourceVersion (S (ResourceVersion bucket)) bucket /\
  stored w' = Some bucket' /\
  trace w' = trace w ++ [CallUpdate bucket None] /\
  output w' = output w.
Proof.
  destruct (arrive_trace w) as [Ht Ho].
  unfold Update. destruct (arrive w) as [ev w1]; simpl in *.
  destruct ev; destruct (stored w1) as [s|]; simpl; try done;
    destruct (Nat.eqb_spec (ResourceVersion s) (ResourceVersion bucket)) as [Hv|];
    try done; intros [= <- <-]; simpl; by rewrite Hv, Ht, Ho.
Qed.

(** An attempt that succeeds: one fetch, one accepted write of the fetched
    snapshot with the request stamped on it. *)
Lemma attempt_ok bucket w bucket' w' :
  requestBucketReconciliation_attempt bucket w = (None, bucket', w') ->
  exists snapshot t,
    bucket' = with_ResourceVersion (S (ResourceVersion snapshot)) (requested t snapshot) /\
    stored w' = Some bucket' /\
    trace w' = trace w ++ [CallGet (inr snapshot); CallUpdate (requested t snapshot) None] /\
    output w' = output w.
Proof.
  rewrite attempt_eq.
  destruct (Get bucket w) as [[[e|] b] w1] eqn:HGet; [done|].
  intros Hupd. apply Update_ok in Hupd as (-> & Hst & Ht & Ho).
  apply Get_ok in HGet as [_ Hw1].
  exists b, (now w1). repeat split; try done.
  - rewrite Ht, Hw1. simpl. destruct (arrive_trace w) as [-> _].
    by rewrite <- app_assoc.
  - rewrite Ho, Hw1. simpl. by destruct (arrive_trace w) as [_ ->].
Qed.

(** An attempt that fails stores nothing. *)
Lemma attempt_failed bucket w e bucket' w' :
  requestBucketReconciliation_attempt bucket w = (Some e, bucket', w') ->
  accepted_writes (trace w') = accepted_writes (trace w) /\
  output w' = output w /\
  exists calls, trace w' = trace w ++ calls.
Proof.
  intros Hatt. destruct (attempt_trace bucket w) as (calls & Ht & Ho & _).
  rewrite Hatt in Ht, Ho. simpl in *. split; [|split; [done|by exists calls]].
  revert Hatt. rewrite attempt_eq.
  destruct (Get_trace bucket w) as (reply & Htg & _).
  destruct (Get bucket w) as [[[e1|] b] w1]; simpl in *.
  - intros [= <- <- <-]. rewrite Htg. unfold accepted_writes.
    rewrite flat_map_app. simpl. by rewrite app_nil_r.
  - intros Hupd.
    destruct (Update_trace (requested (now w1) b) w1) as (r2 & Htu & Hr & _).
    rewrite Hupd in Htu, Hr. simpl in *. subst r2. rewrite Htu, Htg.
    unfold accepted_writes. rewrite !flat_map_app. simpl. by rewrite !app_nil_r.
Qed.

(** The calls of [retry.RetryOnConflict] over the attempt, by how it ends:
    well, with the one accepted write as its last call; or in an error,
    with no write accepted. *)
Lemma RetryOnConflict_writes (n : nat) bucket w :
  let '(err, bucket', w') :=
    uncurry (retry.RetryOnConflict (S n) (curry requestBucketReconciliation_attempt))
      bucket w in
  output w' = output w /\
  match err with
  | None =>
      exists snapshot t calls,
        bucket' = with_ResourceVersion (S (ResourceVersion snapshot)) (requested t snapshot) /\
        stored w' = Some bucket' /\
        trace w' = trace w ++ calls
                     ++ [CallGet (inr snapshot); CallUpdate (requested t snapshot) None] /\
        accepted_writes calls = []
  | Some e =>
      accepted_writes (trace w') = accepted_writes (trace w) /\
      exists calls, trace w' = trace w ++ calls
  end.
Proof.
  revert bucket w. induction n as [|n IH]; intros bucket w; unfold uncurry in *;
    rewrite (RetryOnConflict_unfold _ attempt_no_timeout); unfold curry at 1;
    destruct (requestBucketReconciliation_attempt bucket w) as [[[e|] b1] w1] eqn:Hatt.
  - destruct (attempt_failed _ _ _ _ _ Hatt) as (Ha & Ho & calls & Ht).
    destruct (IsConflict e); eauto.
  - destruct (attempt_ok _ _ _ _ Hatt) as (sn & t & -> & Hst & Ht & Ho).
    split; [done|]. exists sn, t, []. by rewrite Ht.
  - destruct (attempt_failed _ _ _ _ _ Hatt) as (Ha & Ho & calls & Ht).
    destruct (IsConflict e); [|eauto].
    specialize (IH b1 w1).
    destruct (retry.RetryOnConflict (S n) _ (b1, w1)) as [[e2|] [b2 w2]].
    + destruct IH as (Ho2 & Ha2 & calls2 & Ht2). split; [congruence|].
      split; [congruence|]. exists (calls ++ calls2). by rewrite Ht2, Ht, <- app_assoc.
    + destruct IH as (Ho2 & sn & t & calls2 & -> & Hst & Ht2 & Hacc).
      split; [congruence|]. exists sn, t, (calls ++ calls2).
      repeat split; try done.
      * by rewrite Ht2, Ht, <- !app_assoc.
      * rewrite accepted_writes_app, Hacc, app_nil_r.
        rewrite Ht, accepted_writes_app in Ha.
        apply (app_inv_head (accepted_writes (trace w))). by rewrite app_nil_r.
  - destruct (attempt_ok _ _ _ _ Hatt) as (sn & t & -> & Hst & Ht & Ho).
    split; [done|]. exists sn, t, []. by rewrite Ht.
Qed.
End Stored.

(** X1.  Whenever requestBucketReconciliation returns nil, the store holds
    exactly what [bucket] then holds: the snapshot of the last fetch with
    the reconcile request set, under its next resource version.  That
    write is the last call and the only one the server accepted. *)
Theorem requestBucketReconciliation_success_stored
    (bucket bucket' : Bucket) (w w' : World) :
  requestBucketReconciliation bucket w = (None, bucket', w') ->
  exists (snapshot : Bucket) (t : string) (calls : list Call),
    stored w' = Some bucket' /\
    bucket' = with_ResourceVersion (S (ResourceVersion snapshot)) (requested t snapshot) /\
    default ∅ (Annotations bucket') !! meta.ReconcileRequestAnnotation = Some t /\
    trace w' = trace w ++ calls
                 ++ [CallGet (inr snapshot); CallUpdate (requested t snapshot) None] /\
    accepted_writes (trace w') = accepted_writes (trace w) ++ [requested t snapshot].
Proof.
  intros Hrun. pose proof (RetryOnConflict_writes 3 bucket w) as H.
  unfold requestBucketReconciliation in Hrun.
  change retry.DefaultBackoff_Steps with 4%nat in Hrun. rewrite Hrun in H.
  destruct H as (_ & sn & t & calls & -> & Hst & Ht & Hacc).
  exists sn, t, calls. repeat split; try done.
  - simpl. apply lookup_insert_eq.
  - rewrite Ht, !accepted_writes_app, Hacc. simpl. done.
Qed.

Lemma requestBucketReconciliation_success_stored_witness :
  let r := requestBucketReconciliation zeroBucket (Samples.cluster [Idle; Stale]) in
  exists (snapshot : Bucket) (t : string) (calls : list Call),
    stored r.2 = Some r.1.2 /\
    r.1.2 = with_ResourceVersion (S (ResourceVersion snapshot)) (requested t snapshot) /\
    default ∅ (Annotations r.1.2) !! meta.ReconcileRequestAnnotation = Some t /\
    trace r.2 = trace (Samples.cluster [Idle; Stale]) ++ calls
                  ++ [CallGet (inr snapshot); CallUpdate (requested t snapshot) None] /\
    accepted_writes (trace r.2)
      = accepted_writes (trace (Samples.cluster [Idle; Stale])) ++ [requested t snapshot].
Proof.
  intros r.
  apply (requestBucketReconciliation_success_stored zeroBucket r.1.2
           (Samples.cluster [Idle; Stale]) r.2).
  vm_compute. reflexivity.
Defined.

(** X2.  A trigger that succeeds changes nothing but the reconcile request
    and the resource version: generation, spec, status and every other
    annotation of the stored object are those of the snapshot the
    successful attempt fetched. *)
Theorem requestBucketReconciliation_success_frame
    (bucket bucket' : Bucket) (w w' : World) :
  requestBucketReconciliation bucket w = (None, bucket', w') ->
  exists snapshot : Bucket,
    In (CallGet (inr snapshot)) (trace w') /\
    stored w' = Some bucket' /\
    Generation bucket' = Generation snapshot /\
    Spec bucket' = Spec snapshot /\
    Status bucket' = Status snapshot /\
    ResourceVersion bucket' = S (ResourceVersion snapshot) /\
    forall key : string,
      key <> meta.ReconcileRequestAnnotation ->
      default ∅ (Annotations bucket') !! key = default ∅ (Annotations snapshot) !! key.
Proof.
  intros Hrun. pose proof (RetryOnConflict_writes 3 bucket w) as H.
  unfold requestBucketReconciliation in Hrun.
  change retry.DefaultBackoff_Steps with 4%nat in Hrun. rewrite Hrun in H.
  destruct H as (_ & sn & t & calls & -> & Hst & Ht & _).
  exists sn. repeat split; try done.
  - rewrite Ht. rewrite !in_app_iff. right. right. simpl. auto.
  - intros key Hkey. simpl. by apply lookup_insert_ne.
Qed.

Lemma requestBucketReconciliation_success_frame_witness :
  let labelled :=
    with_Annotations (Some {[ "team" := "storage";
                              meta.ReconcileRequestAnnotation := "2023-12-31T23:59:59Z" ]})
      Samples.podinfo in
  let w := with_stored (Some labelled) (Samples.cluster []) in
  let r := requestBucketReconciliation zeroBucket w in
  default ∅ (Annotations r.1.2) !! "team" = Some "storage" /\
  default ∅ (Annotations r.1.2) !! meta.ReconcileRequestAnnotation
    = Some "2024-01-01T00:00:00.000000001Z" /\
  Status r.1.2 = Status Samples.podinfo.
Proof.
  intros labelled w r.
  destruct (requestBucketReconciliation_success_frame zeroBucket r.1.2 w r.2)
    as (sn & Hin & _ & _ & _ & Hstatus & _ & Hkeep).
  - vm_compute. reflexivity.
  - repeat split; vm_compute; reflexivity.
Defined.

(** ** The trigger mutator: what a failed call leaves *)






(** X4.  A write rejected as a conflict is followed by a fresh fetch: when
    the first attempt ends in a conflict and nothing disturbs the write of
    the second, the call returns nil and the stored request carries the
    time of the second attempt, on the snapshot the second fetch
    delivered. *)
Theorem requestBucketReconciliation_conflict_then_success
    (bucket bucket1 snapshot : Bucket) (w w1 w2 : World) :
  requestBucketReconciliation_attempt bucket w = (Some ErrConflict, bucket1, w1) ->
  Get bucket1 w1 = (None, snapshot, w2) ->
  calm (upcoming w2) = true ->
  exists w' : World,
    requestBucketReconciliation bucket w
      = (None, with_ResourceVersion (S (ResourceVersion snapshot))
                 (requested (now w2) snapshot), w') /\
    stored w' = Some (with_ResourceVersion (S (ResourceVersion snapshot))
                        (requested (now w2) snapshot)) /\
    accepted_writes (trace w')
      = accepted_writes (trace w) ++ [requested (now w2) snapshot].
Proof.
  intros Hatt HGet Hcalm.
  rewrite requestBucketReconciliation_unfold, Hatt. simpl.
  unfold uncurry. rewrite (RetryOnConflict_unfold _ attempt_no_timeout).
  unfold curry at 1. rewrite attempt_eq, HGet.
  destruct (Get_ok _ _ _ _ HGet) as [Hst Hw2].
  rewrite (Update_accepted (requested (now w2) snapshot) snapshot w2 Hcalm Hst eq_refl).
  eexists. split; [reflexivity|]. simpl. split; [reflexivity|].
  destruct (attempt_failed _ _ _ _ _ Hatt) as (Ha & _).
  destruct (arrive_trace w2) as [-> _]. rewrite Hw2. simpl.
  destruct (arrive_trace w1) as [-> _].
  rewrite !accepted_writes_app, Ha. simpl. by rewrite app_nil_r.
Qed.

(** The controller writes its status between the fetch and the write of
    the first attempt; the second attempt starts a tick later. *)
Lemma requestBucketReconciliation_conflict_then_success_witness :
  let w := Samples.cluster
    [Idle; Samples.controller 2 [] None; Tick "2024-01-01T00:00:00.25Z"] in
  exists w' : World,
    requestBucketReconciliation zeroBucket w
      = (None,
         with_ResourceVersion 9
           (requested "2024-01-01T00:00:00.25Z"
              (Get zeroBucket (Samples.cluster [Samples.controller 2 [] None])).1.2),
         w') /\
    stored w' = Some (with_ResourceVersion 9
           (requested "2024-01-01T00:00:00.25Z"
              (Get zeroBucket (Samples.cluster [Samples.controller 2 [] None])).1.2)) /\
    accepted_writes (trace w')
      = [requested "2024-01-01T00:00:00.25Z"
           (Get zeroBucket (Samples.cluster [Samples.controller 2 [] None])).1.2].
Proof.
  intros w.
  pose (r1 := requestBucketReconciliation_attempt zeroBucket w).
  pose (r2 := Get r1.1.2 r1.2).
  apply (requestBucketReconciliation_conflict_then_success
           zeroBucket r1.1.2 r2.1.2 w r1.2 r2.2); vm_compute; reflexivity.
Defined.

(** ** The wait: the calls it makes *)

Section Wait.
Implicit Types (bucket : Bucket) (w : World) (baseline : string).

Lemma unhandled_fetches_no_write baseline (calls : list Call) :
  Forall (unhandled_fetch baseline) calls ->
  accepted_writes calls = [] /\ forallb is_fetch calls = true.
Proof.
  induction 1 as [|c calls (sn & -> & _) _ [IH1 IH2]]; [done|].
  split; [exact IH1 | exact IH2].
Qed.

(** One evaluation of the handled predicate, however it ends. *)
Lemma handled_step_any baseline bucket w :
  let '((ok, err), bucket1, w1) := bucketReconciliationHandled baseline bucket w in
  output w1 = output w /\
  match err with
  | Some e => trace w1 = trace w ++ [CallGet (inl e)] /\ ok = false /\ bucket1 = bucket
  | None =>
      trace w1 = trace w ++ [CallGet (inr bucket1)] /\
      (ok = true -> LastHandledReconcileAt (Status bucket1) <> baseline) /\
      (ok = false -> unhandled_fetch baseline (CallGet (inr bucket1)))
  end.
Proof.
  pose proof (handled_step baseline bucket w) as Hstep.
  unfold bucketReconciliationHandled in *.
  destruct (arrive_trace w) as [Hta Hoa].
  destruct (Get bucket w) as [[[e|] b1] w1] eqn:HGet.
  - apply Get_err in HGet as (-> & _ & _ & ->). simpl. by rewrite Hta, Hoa.
  - destruct (Hstep eq_refl) as (Ht & _ & Ho & Hyes & Hno).
    repeat split; try done. intros Hok. exists b1. auto.
Qed.

Lemma WaitFor_fetches baseline (n : nat) bucket w :
  let '(err, (bucket', w')) :=
    wait.WaitFor n (curry (bucketReconciliationHandled baseline)) (bucket, w) in
  exists (earlier : list Call) (final : Call),
    trace w' = trace w ++ earlier ++ [final] /\
    Forall (unhandled_fetch baseline) earlier /\
    (length earlier <= n)%nat /\
    output w' = output w /\
    match err with
    | None =>
        final = CallGet (inr bucket') /\
        LastHandledReconcileAt (Status bucket') <> baseline
    | Some e =>
        (e = ErrWaitTimeout /\ unhandled_fetch baseline final /\ length earlier = n) \/
        final = CallGet (inl e)
    end.
Proof.
  revert bucket w. induction n as [|n IH]; intros bucket w; simpl;
    pose proof (handled_step_any baseline bucket w) as Hstep;
    destruct (bucketReconciliationHandled baseline bucket w) as [[[ok [e|]] b1] w1];
    destruct Hstep as (Ho & Hstep).
  - destruct Hstep as (Ht & _ & _). exists [], (CallGet (inl e)). simpl.
    repeat split; auto.
  - destruct Hstep as (Ht & Hyes & Hno). destruct ok.
    + exists [], (CallGet (inr b1)). simpl. repeat split; auto.
    + exists [], (CallGet (inr b1)). simpl. repeat split; auto.
  - destruct Hstep as (Ht & _ & _). exists [], (CallGet (inl e)). simpl.
    repeat split; auto. lia.
  - destruct Hstep as (Ht & Hyes & Hno). destruct ok.
    + exists [], (CallGet (inr b1)). simpl. repeat split; auto. lia.
    + specialize (IH b1 w1).
      destruct (wait.WaitFor n _ (b1, w1)) as [err [b' w']].
      destruct IH as (earlier & final & Ht' & Hall & Hlen & Ho' & Hend).
      exists (CallGet (inr b1) :: earlier), final.
      rewrite Ht', Ht, Ho', Ho, <- app_assoc. simpl.
      repeat split; auto; [lia|].
      destruct err as [e|]; [|done].
      destruct Hend as [(-> & Hu & <-) | ->]; auto.
Qed.

(** [wait.PollImmediate] over the handled predicate, for any number of
    ticks: unhandled fetches, then one last call that decides. *)
Lemma PollImmediate_fetches baseline (n : nat) bucket w :
  let '(err, bucket', w') :=
    uncurry (wait.PollImmediate n (curry (bucketReconciliationHandled baseline)))
      bucket w in
  exists (earlier : list Call) (final : Call),
    trace w' = trace w ++ earlier ++ [final] /\
    Forall (unhandled_fetch baseline) earlier /\
    (length earlier <= n + 1)%nat /\
    output w' = output w /\
    match err with
    | None =>
        final = CallGet (inr bucket') /\
        LastHandledReconcileAt (Status bucket') <> baseline
    | Some e =>
        (e = ErrWaitTimeout /\ unhandled_fetch baseline final /\
         length earlier = (n + 1)%nat) \/
        final = CallGet (inl e)
    end.
Proof.
  unfold uncurry, wait.PollImmediate. unfold curry at 1.
  pose proof (handled_step_any baseline bucket w) as Hstep.
  destruct (bucketReconciliationHandled baseline bucket w) as [[[ok [e|]] b1] w1];
    destruct Hstep as (Ho & Hstep).
  - destruct Hstep as (Ht & _ & _). exists [], (CallGet (inl e)). simpl.
    repeat split; auto. lia.
  - destruct Hstep as (Ht & Hyes & Hno). destruct ok.
    + exists [], (CallGet (inr b1)). simpl. repeat split; auto. lia.
    + pose proof (WaitFor_fetches baseline n b1 w1) as H.
      destruct (wait.WaitFor n _ (b1, w1)) as [err [b' w']].
      destruct H as (earlier & final & Ht' & Hall & Hlen & Ho' & Hend).
      exists (CallGet (inr b1) :: earlier), final.
      rewrite Ht', Ht, Ho', Ho, <- app_assoc. simpl.
      repeat split; auto; [lia|].
      destruct err as [e|]; [|done].
      destruct Hend as [(-> & Hu & <-) | ->]; auto.
      left. repeat split; auto. lia.
Qed.
End Wait.

(** X5.  The wait of the command only reads.  It makes between one and
    [ticks + 2] fetches; every fetch but the last delivered a snapshot that
    still carries the baseline.  It ends well on a snapshot that no longer
    does, which [bucket] then holds; it ends in the timeout only after
    [ticks + 2] unhandled fetches; any other error is the error of the last
    fetch.  Nothing is printed and no write is made. *)
Theorem handled_wait_only_fetches
    (rootArgs : RootArgs) (baseline : string) (bucket : Bucket) (w : World) :
  let '(err, bucket', w') := handled_wait rootArgs baseline bucket w in
  exists (earlier : list Call) (final : Call),
    trace w' = trace w ++ earlier ++ [final] /\
    Forall (unhandled_fetch baseline) earlier /\
    (length earlier <= ticks rootArgs + 1)%nat /\
    is_fetch final = true /\
    accepted_writes (trace w') = accepted_writes (trace w) /\
    output w' = output w /\
    match err with
    | None =>
        final = CallGet (inr bucket') /\
        LastHandledReconcileAt (Status bucket') <> baseline
    | Some e =>
        (e = ErrWaitTimeout /\ unhandled_fetch baseline final /\
         length earlier = (ticks rootArgs + 1)%nat) \/
        final = CallGet (inl e)
    end.
Proof.
  pose proof (PollImmediate_fetches baseline (ticks rootArgs) bucket w) as H.
  unfold handled_wait.
  destruct (uncurry _ bucket w) as [[err b'] w'].
  destruct H as (earlier & final & Ht & Hall & Hlen & Ho & Hend).
  exists earlier, final.
  destruct (unhandled_fetches_no_write _ _ Hall) as [Hnw _].
  assert (is_fetch final = true) as Hf.
  { destruct err as [e|]; [destruct Hend as [(_ & (sn & -> & _) & _) | ->]|
                           destruct Hend as [-> _]]; done. }
  repeat split; try done.
  rewrite Ht, !accepted_writes_app, Hnw. simpl.
  destruct final; [by rewrite app_nil_r|done].
Qed.

(** ** The wait: a fetch that fails *)

(** A fetch ahead of which nothing but the clock moves. *)
Lemma Get_calm (bucket b : Bucket) (w : World) (ev : Event) (rest : list Event) :
  schedule w = ev :: rest ->
  calm ev = true ->
  stored w = Some b ->
  exists w1 : World,
    Get bucket w = (None, b, w1) /\
    stored w1 = Some b /\ schedule w1 = rest /\
    trace w1 = trace w ++ [CallGet (inr b)] /\
    output w1 = output w.
Proof.
  intros Hsch Hcalm Hst. unfold Get, arrive. rewrite Hsch.
  destruct ev; try done; simpl; rewrite Hst;
    (eexists; split; [reflexivity|]; done).
Qed.

(** A fetch that the server does not serve. *)
Lemma Get_unavailable (bucket : Bucket) (w : World) (msg : string) (rest : list Event) :
  schedule w = Unavailable msg :: rest ->
  exists w1 : World,
    Get bucket w = (Some (ErrServer msg), bucket, w1) /\
    stored w1 = stored w /\ schedule w1 = rest /\
    trace w1 = trace w ++ [CallGet (inl (ErrServer msg))] /\
    output w1 = output w.
Proof.
  intros Hsch. unfold Get, arrive. rewrite Hsch. simpl.
  eexists. split; [reflexivity|]. done.
Qed.

Lemma WaitFor_fetch_fails (baseline msg : string) (calms rest : list Event) (b : Bucket) :
  forall (n : nat) (bucket : Bucket) (w : World),
    (length calms <= n)%nat ->
    schedule w = calms ++ Unavailable msg :: rest ->
    forallb calm calms = true ->
    stored w = Some b ->
    LastHandledReconcileAt (Status b) = baseline ->
    exists w' : World,
      uncurry (wait.WaitFor n (curry (bucketReconciliationHandled baseline))) bucket w
        = (Some (ErrServer msg), match calms with [] => bucket | _ => b end, w') /\
      trace w' = trace w ++ replicate (length calms) (CallGet (inr b))
                   ++ [CallGet (inl (ErrServer msg))] /\
      stored w' = Some b /\ output w' = output w.
Proof.
  induction calms as [|ev calms IH]; intros n bucket w Hlen Hsch Hcalm Hst Hb.
  - destruct (Get_unavailable bucket w msg rest Hsch) as (w1 & HGet & Hst1 & _ & Ht1 & Ho1).
    exists w1. unfold uncurry. destruct n; simpl;
      unfold bucketReconciliationHandled; rewrite HGet; simpl;
      by rewrite Hst1.
  - simpl in Hlen, Hcalm. apply andb_prop in Hcalm as [Hev Hcalm].
    destruct n as [|n]; [lia|].
    destruct (Get_calm bucket b w ev _ Hsch Hev Hst)
      as (w1 & HGet & Hst1 & Hsch1 & Ht1 & Ho1).
    destruct (IH n b w1) as (w' & Hrun & Ht & Hst' & Ho'); [lia|done..|].
    exists w'. unfold uncurry in *. simpl.
    unfold bucketReconciliationHandled at 1. rewrite HGet, Hb, String.eqb_refl. simpl.
    destruct (wait.WaitFor n _ (b, w1)) as [err [b' w'']].
    injection Hrun as -> Hb' ->.
    assert (b' = b) as -> by (by destruct calms).
    by rewrite Ht, Ht1, Ho', Ho1, <- app_assoc.
Qed.

Lemma PollImmediate_fetch_fails (baseline msg : string) (calms rest : list Event)
    (b bucket : Bucket) (n : nat) (w : World) :
  (length calms <= n + 1)%nat ->
  schedule w = calms ++ Unavailable msg :: rest ->
  forallb calm calms = true ->
  stored w = Some b ->
  LastHandledReconcileAt (Status b) = baseline ->
  exists w' : World,
    uncurry (wait.PollImmediate n (curry (bucketReconciliationHandled baseline))) bucket w
      = (Some (ErrServer msg), match calms with [] => bucket | _ => b end, w') /\
    trace w' = trace w ++ replicate (length calms) (CallGet (inr b))
                 ++ [CallGet (inl (ErrServer msg))] /\
    stored w' = Some b /\ output w' = output w.
Proof.
  intros Hlen Hsch Hcalm Hst Hb. destruct calms as [|ev calms].
  - destruct (Get_unavailable bucket w msg rest Hsch) as (w1 & HGet & Hst1 & _ & Ht1 & Ho1).
    exists w1. unfold uncurry, wait.PollImmediate. unfold curry at 1.
    unfold bucketReconciliationHandled. rewrite HGet. simpl. by rewrite Hst1.
  - simpl in Hlen, Hcalm. apply andb_prop in Hcalm as [Hev Hcalm].
    destruct (Get_calm bucket b w ev _ Hsch Hev Hst)
      as (w1 & HGet & Hst1 & Hsch1 & Ht1 & Ho1).
    destruct (WaitFor_fetch_fails baseline msg calms rest b n b w1)
      as (w' & Hrun & Ht & Hst' & Ho'); [lia|done..|].
    exists w'. unfold uncurry, wait.PollImmediate in *. unfold curry at 1.
    unfold bucketReconciliationHandled at 1. rewrite HGet, Hb, String.eqb_refl. simpl.
    destruct (wait.WaitFor n _ (b, w1)) as [err [b' w'']].
    injection Hrun as -> Hb' ->.
    assert (b' = b) as -> by (by destruct calms).
    by rewrite Ht, Ht1, Ho', Ho1, <- app_assoc.
Qed.

(** X6.  While the stored object keeps the baseline, a fetch of the wait
    that fails ends the wait with its error at once: after [k] undisturbed
    fetches (at most [ticks + 1] of them) and the failed one, the wait
    returns the error of that fetch, not the timeout, and [bucket] holds
    the object as last fetched. *)
Theorem handled_wait_fetch_fails
    (rootArgs : RootArgs) (baseline msg : string) (calms rest : list Event)
    (b bucket : Bucket) (w : World) :
  (length calms <= ticks rootArgs + 1)%nat ->
  schedule w = calms ++ Unavailable msg :: rest ->
  forallb calm calms = true ->
  stored w = Some b ->
  LastHandledReconcileAt (Status b) = baseline ->
  exists w' : World,
    handled_wait rootArgs baseline bucket w
      = (Some (ErrServer msg), match calms with [] => bucket | _ => b end, w') /\
    trace w' = trace w ++ replicate (length calms) (CallGet (inr b))
                 ++ [CallGet (inl (ErrServer msg))] /\
    stored w' = Some b /\ output w' = output w.
Proof.
  intros Hlen Hsch Hcalm Hst Hb. unfold handled_wait.
  exact (PollImmediate_fetch_fails baseline msg calms rest b bucket (ticks rootArgs) w
           Hlen Hsch Hcalm Hst Hb).
Qed.

(** The context of the command runs out as the wait's deadline passes:
    the fetch made then fails. *)
Lemma handled_wait_fetch_fails_witness :
  exists w' : World,
    handled_wait Samples.rootArgs "" zeroBucket
      (Samples.cluster [Idle; Tick "2024-01-01T00:00:01Z"; Idle; Idle;
                        Unavailable "context deadline exceeded"])
      = (Some (ErrServer "context deadline exceeded"), Samples.podinfo, w') /\
    trace w' = replicate 4 (CallGet (inr Samples.podinfo))
                 ++ [CallGet (inl (ErrServer "context deadline exceeded"))] /\
    stored w' = Some Samples.podinfo /\ output w' = [].
Proof.
  apply (handled_wait_fetch_fails Samples.rootArgs "" "context deadline exceeded"
           [Idle; Tick "2024-01-01T00:00:01Z"; Idle; Idle] [] Samples.podinfo zeroBucket
           (Samples.cluster [Idle; Tick "2024-01-01T00:00:01Z"; Idle; Idle;
                             Unavailable "context deadline exceeded"]));
    [simpl; lia | reflexivity..].
Defined.

(** X7.  A snapshot that no longer carries the baseline at the very first
    fetch ends the wait at once, whatever the number of ticks: one fetch,
    and [bucket] holds its snapshot. *)
Theorem handled_wait_immediate
    (rootArgs : RootArgs) (baseline : string) (bucket snapshot : Bucket) (w w1 : World) :
  Get bucket w = (None, snapshot, w1) ->
  LastHandledReconcileAt (Status snapshot) <> baseline ->
  handled_wait rootArgs baseline bucket w = (None, snapshot, w1) /\
  trace w1 = trace w ++ [CallGet (inr snapshot)].
Proof.
  intros HGet Hne.
  unfold handled_wait, uncurry, wait.PollImmediate. unfold curry at 1.
  unfold bucketReconciliationHandled. rewrite HGet.
  destruct (String.eqb_spec (LastHandledReconcileAt (Status snapshot)) baseline);
    [done|]. simpl. split; [reflexivity|].
  apply Get_ok in HGet as [_ ->]. simpl. by destruct (arrive_trace w) as [-> _].
Qed.

Lemma handled_wait_immediate_witness :
  let w := Samples.cluster [Samples.controller 2 [] None] in
  let rootArgs := {| namespace := "flux-system"; KubeClient := None; ticks := 0 |} in
  handled_wait rootArgs "" zeroBucket w
    = (None, (Get zeroBucket w).1.2, (Get zeroBucket w).2) /\
  trace (Get zeroBucket w).2 = trace w ++ [CallGet (inr (Get zeroBucket w).1.2)].
Proof.
  intros w rootArgs.
  apply (handled_wait_immediate rootArgs "" zeroBucket); [reflexivity|].
  vm_compute. discriminate.
Defined.

(** ** The orchestrator: every run *)

(** The calls and the lines of a run, whatever its outcome: the lines are
    the first [k] of the five a successful run prints, and a write has been
    accepted exactly where the run got past the trigger. *)
Lemma reconcileSourceBucketCmdRun_shape
    (rootArgs : RootArgs) (args : list string) (w : World) :
  let '(outcome, bucket, w') := reconcileSourceBucketCmdRun rootArgs args w in
  exists (calls : list Call) (k : nat) (name revision : string),
    trace w' = trace w ++ calls /\
    output w' = output w ++ take k (success_lines rootArgs name revision) /\
    (length calls <= ticks rootArgs + 11)%nat /\
    ((k <= 1)%nat /\ accepted_writes calls = [] /\ outcome <> Returned None \/
     (3 <= k <= 5)%nat /\
     (exists snapshot t before after,
         calls = before
                   ++ [CallGet (inr snapshot); CallUpdate (requested t snapshot) None]
                   ++ after /\
         accepted_writes before = [] /\ accepted_writes after = []) /\
     (outcome = Returned None <-> k = 5%nat)).
Proof.
  unfold reconcileSourceBucketCmdRun.
  destruct args as [|name rest].
  { exists [], 0%nat, "", "". rewrite !app_nil_r.
    split; [done|]. split; [done|]. split; [simpl; lia|].
    left. split; [lia|]. by split. }
  destruct (KubeClient rootArgs).
  { exists [], 0%nat, "", "". rewrite !app_nil_r.
    split; [done|]. split; [done|]. split; [simpl; lia|].
    left. split; [lia|]. by split. }
  destruct (Get_trace zeroBucket w) as (reply & Ht0 & Ho0).
  destruct (Get zeroBucket w) as [[[e|] first] w0]; simpl in Ht0, Ho0.
  { exists [CallGet reply], 0%nat, "", "". rewrite Ht0, Ho0, app_nil_r.
    split; [done|]. split; [done|]. split; [simpl; lia|].
    left. split; [lia|]. by split. }
  destruct (Suspend (Spec first)).
  { exists [CallGet reply], 0%nat, "", "". rewrite Ht0, Ho0, app_nil_r.
    split; [done|]. split; [done|]. split; [simpl; lia|].
    left. split; [lia|]. by split. }
  match goal with |- context [requestBucketReconciliation first ?w1] =>
    pose proof (RetryOnConflict_writes 3 first w1) as Hreq;
    pose proof (RetryOnConflict_trace_bound 4 first w1) as Hbound;
    change (uncurry (retry.RetryOnConflict 4
                       (curry requestBucketReconciliation_attempt)) first w1)
      with (requestBucketReconciliation first w1) in Hreq, Hbound;
    destruct (requestBucketReconciliation first w1) as [[[e|] annotated] w1']
  end; simpl in Hreq, Hbound; rewrite Ht0 in Hbound.
  { destruct Hreq as (Ho1 & Ha & calls & Ht1). rewrite Ht0 in Ht1, Ha.
    exists (CallGet reply :: calls), 1%nat, name, "".
    rewrite Ht1, Ho1, Ho0, <- app_assoc. simpl.
    rewrite Ht1, !length_app in Hbound. simpl in Hbound.
    split; [done|]. split; [done|]. split; [lia|].
    left. split; [lia|]. split; [|done].
    rewrite Ht1, !accepted_writes_app in Ha. simpl in Ha.
    rewrite app_nil_r in Ha.
    apply (app_inv_head (accepted_writes (trace w))). by rewrite app_nil_r. }
  destruct Hreq as (Ho1 & sn & t & calls & _ & _ & Ht1 & Hacc).
  rewrite Ht0 in Ht1. rewrite Ht1, !length_app in Hbound. simpl in Hbound.
  match goal with |- context [uncurry (wait.PollImmediate ?n ?c) annotated ?w2] =>
    pose proof (PollImmediate_fetches (LastHandledReconcileAt (Status first)) n
                  annotated w2) as Hwait;
    destruct (uncurry (wait.PollImmediate n c) annotated w2) as [[err final] w2']
  end.
  destruct Hwait as (earlier & last_call & Ht2 & Hall & Hlen & Ho2 & Hend).
  simpl in Ht2, Ho2. rewrite Ht1 in Ht2. rewrite Ho1, Ho0 in Ho2. simpl in Ho2.
  destruct (unhandled_fetches_no_write _ _ Hall) as [Hnw _].
  assert (accepted_writes [last_call] = []) as Hlast.
  { destruct err as [e|]; [destruct Hend as [(_ & (s1 & -> & _) & _) | ->]|
                           destruct Hend as [-> _]]; done. }
  assert (Hcalls : trace w2' = trace w ++ (CallGet reply :: calls
            ++ [CallGet (inr sn); CallUpdate (requested t sn) None]
            ++ earlier ++ [last_call])).
  { rewrite Ht2. by rewrite <- !app_assoc. }
  assert (Hposition : exists snapshot t0 before after,
            CallGet reply :: calls
              ++ [CallGet (inr sn); CallUpdate (requested t sn) None]
              ++ earlier ++ [last_call]
            = before
                ++ [CallGet (inr snapshot); CallUpdate (requested t0 snapshot) None]
                ++ after /\
            accepted_writes before = [] /\ accepted_writes after = []).
  { exists sn, t, (CallGet reply :: calls), (earlier ++ [last_call]).
    split; [done|]. split; [exact Hacc|].
    by rewrite accepted_writes_app, Hnw, Hlast. }
  assert (Hlength : (length (CallGet reply :: calls
            ++ [CallGet (inr sn); CallUpdate (requested t sn) None]
            ++ earlier ++ [last_call]) <= ticks rootArgs + 11)%nat).
  { simpl. rewrite !length_app. simpl. rewrite length_app. simpl. lia. }
  destruct err as [e|].
  { eexists. exists 3%nat, name, "". split; [exact Hcalls|]. simpl.
    split; [by rewrite Ho2, <- !app_assoc|]. split; [exact Hlength|].
    right. split; [lia|]. split; [exact Hposition|]. split; [done|lia]. }
  destruct (apimeta.IsStatusConditionFalse _ _).
  { eexists. exists 4%nat, name, "". split; [exact Hcalls|]. simpl.
    split; [by rewrite Ho2, <- !app_assoc|]. split; [exact Hlength|].
    right. split; [lia|]. split; [exact Hposition|]. split; [done|lia]. }
  destruct (Status_Artifact (Status final)) as [artifact|].
  - eexists. exists 5%nat, name, (Revision artifact). split; [exact Hcalls|]. simpl.
    split; [by rewrite Ho2, <- !app_assoc|]. split; [exact Hlength|].
    right. split; [lia|]. split; [exact Hposition|]. done.
  - eexists. exists 4%nat, name, "". split; [exact Hcalls|]. simpl.
    split; [by rewrite Ho2, <- !app_assoc|]. split; [exact Hlength|].
    right. split; [lia|]. split; [exact Hposition|]. split; [done|lia].
Qed.

(** X8.  One invocation gets at most one write accepted.  That write
    directly follows the fetch whose snapshot it writes back, with the
    reconcile request set on it; no call before or after it in the run is
    an accepted write.  A run without an accepted write does not return
    nil. *)
Theorem reconcileSourceBucketCmdRun_at_most_one_write
    (rootArgs : RootArgs) (args : list string) (w : World) :
  let '(outcome, bucket, w') := reconcileSourceBucketCmdRun rootArgs args w in
  (accepted_writes (trace w') = accepted_writes (trace w) /\ outcome <> Returned None) \/
  (exists (snapshot : Bucket) (t : string) (before after : list Call),
      trace w' = trace w ++ before
                   ++ [CallGet (inr snapshot); CallUpdate (requested t snapshot) None]
                   ++ after /\
      accepted_writes before = [] /\ accepted_writes after = [] /\
      accepted_writes (trace w') = accepted_writes (trace w) ++ [requested t snapshot]).
Proof.
  pose proof (reconcileSourceBucketCmdRun_shape rootArgs args w) as H.
  destruct (reconcileSourceBucketCmdRun rootArgs args w) as [[outcome bucket] w'].
  destruct H as (calls & k & name & rev & Ht & _ & _ & [(_ & Ha & Hne) | (_ & Ha & _)]).
  - left. split; [|done]. by rewrite Ht, accepted_writes_app, Ha, app_nil_r.
  - right. destruct Ha as (sn & t & before & after & -> & Hb & Ha).
    exists sn, t, before, after. split; [done|]. split; [done|]. split; [done|].
    rewrite Ht, !accepted_writes_app, Hb, Ha. done.
Qed.

(** X9.  One invocation makes at most [ticks + 11] calls to the server:
    the first fetch, at most four attempts of two calls for the trigger,
    and at most [ticks + 2] fetches of the wait. *)
Theorem reconcileSourceBucketCmdRun_call_bound
    (rootArgs : RootArgs) (args : list string) (w : World) :
  (length (trace (reconcileSourceBucketCmdRun rootArgs args w).2)
   <= length (trace w) + (ticks rootArgs + 11))%nat.
Proof.
  pose proof (reconcileSourceBucketCmdRun_shape rootArgs args w) as H.
  destruct (reconcileSourceBucketCmdRun rootArgs args w) as [[outcome bucket] w'].
  destruct H as (calls & k & name & rev & Ht & _ & Hlen & _). simpl.
  rewrite Ht, length_app. lia.
Qed.

(** X10.  What a run prints tells how far it got: the line "Bucket source
    annotated" is among the lines of a run exactly when the server accepted
    the write of the reconcile request in that run. *)
Theorem reconcileSourceBucketCmdRun_annotated_line
    (rootArgs : RootArgs) (args : list string) (w : World) :
  let '(outcome, bucket, w') := reconcileSourceBucketCmdRun rootArgs args w in
  exists (calls : list Call) (lines : list LogLine),
    trace w' = trace w ++ calls /\
    output w' = output w ++ lines /\
    (In (Successf "Bucket source annotated") lines <-> accepted_writes calls <> []).
Proof.
  pose proof (reconcileSourceBucketCmdRun_shape rootArgs args w) as H.
  destruct (reconcileSourceBucketCmdRun rootArgs args w) as [[outcome bucket] w'].
  destruct H as (calls & k & name & rev & Ht & Ho & _ & [(Hk & Ha & _) | (Hk & Ha & _)]).
  - exists calls, (take k (success_lines rootArgs name rev)).
    split; [done|]. split; [done|]. rewrite Ha. split; [|done].
    destruct k as [|[|k]]; simpl; [tauto| |lia].
    intros [H|[]]. discriminate H.
  - exists calls, (take k (success_lines rootArgs name rev)).
    split; [done|]. split; [done|].
    destruct Ha as (sn & t & before & after & -> & Hb & Ha).
    rewrite !accepted_writes_app, Hb, Ha.
    split; [done|]. intros _.
    destruct k as [|[|[|k]]]; [lia..|]. simpl. auto.
Qed.

(** X11.  A run that returns nil has printed, after what was there, the
    five lines of a successful run in their order, the last one with the
    revision of the artifact of the final snapshot. *)
Theorem reconcileSourceBucketCmdRun_success_lines
    (rootArgs : RootArgs) (args : list string) (w w' : World) (final : Bucket) :
  reconcileSourceBucketCmdRun rootArgs args w = (Returned None, final, w') ->
  exists (name : string) (rest : list string) (artifact : Artifact),
    args = name :: rest /\
    Status_Artifact (Status final) = Some artifact /\
    output w' = output w ++ success_lines rootArgs name (Revision artifact).
Proof.
  intros Hrun.
  destruct (reconcileSourceBucketCmdRun_succeeded_inv _ _ _ _ _ Hrun)
    as (name & rest & w0 & w1 & w2 & first & annotated & -> & Hk & HGet & Hs & Hreq & Hwait).
  rewrite (reconcileSourceBucketCmdRun_after_wait _ _ rest _ _ _ _ _ _ _
             Hk HGet Hs Hreq Hwait) in Hrun.
  destruct (handled_wait_succeeded _ _ _ _ _ _ Hwait) as (_ & _ & _ & _ & _ & Ho2).
  destruct (RetryOnConflict_succeeded 3 _ _ _ _ Hreq) as (_ & _ & _ & Ho1).
  destruct (Get_ok _ _ _ _ HGet) as [_ Hw0].
  simpl in Hrun.
  destruct (apimeta.IsStatusConditionFalse _ _); [done|].
  destruct (Status_Artifact (Status final)) as [artifact|]; [|done].
  injection Hrun as <-. exists name, rest, artifact. repeat split.
  simpl. rewrite Ho2. simpl. rewrite Ho1. simpl. rewrite Hw0. simpl.
  destruct (arrive_trace w) as [_ ->]. by rewrite <- !app_assoc.
Qed.

Lemma reconcileSourceBucketCmdRun_success_lines_witness :
  let w := Samples.cluster
    [Idle; Idle; Idle; Idle;
     Samples.controller 2 [Samples.ready "True" "stored artifact"]
       (Some {| Revision := "sha256:2b5c" |})] in
  let r := reconcileSourceBucketCmdRun Samples.rootArgs ["podinfo"] w in
  exists (name : string) (rest : list string) (artifact : Artifact),
    ["podinfo"] = name :: rest /\
    Status_Artifact (Status r.1.2) = Some artifact /\
    output r.2 = output w ++ success_lines Samples.rootArgs name (Revision artifact).
Proof.
  intros w r.
  apply (reconcileSourceBucketCmdRun_success_lines Samples.rootArgs ["podinfo"] w).
  vm_compute. reflexivity.
Defined.

(** ** The orchestrator: a controller that does not answer *)

(** The trigger where only the clock moves: one fetch, one accepted write. *)
Lemma requestBucketReconciliation_calm (bucket b : Bucket) (w : World)
    (e1 e2 : Event) (rest : list Event) :
  schedule w = e1 :: e2 :: rest ->
  calm e1 = true -> calm e2 = true ->
  stored w = Some b ->
  exists (t : string) (w' : World),
    requestBucketReconciliation bucket w
      = (None, with_ResourceVersion (S (ResourceVersion b)) (requested t b), w') /\
    stored w' = Some (with_ResourceVersion (S (ResourceVersion b)) (requested t b)) /\
    schedule w' = rest /\
    trace w' = trace w ++ [CallGet (inr b); CallUpdate (requested t b) None] /\
    output w' = output w.
Proof.
  intros Hsch Hc1 Hc2 Hst.
  destruct (Get_calm bucket b w e1 _ Hsch Hc1 Hst) as (w1 & HGet & Hst1 & Hsch1 & Ht1 & Ho1).
  assert (calm (upcoming w1) = true) as Hup by (unfold upcoming; by rewrite Hsch1).
  rewrite requestBucketReconciliation_unfold, attempt_eq, HGet.
  rewrite (Update_accepted (requested (now w1) b) b w1 Hup Hst1 eq_refl).
  exists (now w1). eexists. split; [reflexivity|]. simpl.
  destruct (arrive_trace w1) as [-> ->]. rewrite arrive_schedule, Hsch1, Ht1, Ho1.
  by rewrite <- app_assoc.
Qed.

(** X12.  Where the resource exists, is not suspended, the controller
    never takes up the request and a fetch of the wait fails (as it does
    once the context of the command has run out), the command stores the
    request at the first attempt, makes the undisturbed fetches of the
    wait, and returns the error of the failed fetch; it has printed the
    first three lines and the store holds the annotated object. *)
Theorem reconcileSourceBucketCmdRun_never_handled
    (rootArgs : RootArgs) (name msg : string) (rest : list string) (b : Bucket)
    (w : World) (e1 e2 e3 : Event) (calms later : list Event) :
  KubeClient rootArgs = None ->
  stored w = Some b ->
  Suspend (Spec b) = false ->
  schedule w = e1 :: e2 :: e3 :: calms ++ Unavailable msg :: later ->
  calm e1 = true -> calm e2 = true -> calm e3 = true ->
  forallb calm calms = true ->
  (length calms <= ticks rootArgs + 1)%nat ->
  exists (t : string) (w' : World),
    let annotated := with_ResourceVersion (S (ResourceVersion b)) (requested t b) in
    reconcileSourceBucketCmdRun rootArgs (name :: rest) w
      = (Returned (Some (ErrServer msg)), annotated, w') /\
    stored w' = Some annotated /\
    trace w' = trace w
                 ++ [CallGet (inr b); CallGet (inr b); CallUpdate (requested t b) None]
                 ++ replicate (length calms) (CallGet (inr annotated))
                 ++ [CallGet (inl (ErrServer msg))] /\
    output w' = output w ++ take 3 (success_lines rootArgs name "").
Proof.
  intros Hk Hst Hs Hsch Hc1 Hc2 Hc3 Hcalm Hlen.
  destruct (Get_calm zeroBucket b w e1 _ Hsch Hc1 Hst)
    as (w0 & HGet & Hst0 & Hsch0 & Ht0 & Ho0).
  destruct (requestBucketReconciliation_calm b b (before_request rootArgs name w0)
              e2 e3 (calms ++ Unavailable msg :: later))
    as (t & w1 & Hreq & Hst1 & Hsch1 & Ht1 & Ho1); [done..|].
  destruct (PollImmediate_fetch_fails (LastHandledReconcileAt (Status b)) msg calms later
              (with_ResourceVersion (S (ResourceVersion b)) (requested t b))
              (with_ResourceVersion (S (ResourceVersion b)) (requested t b))
              (ticks rootArgs) (before_wait w1))
    as (w2 & Hwait & Ht2 & Hst2 & Ho2); [done..|].
  assert (match calms with
          | [] => with_ResourceVersion (S (ResourceVersion b)) (requested t b)
          | _ => with_ResourceVersion (S (ResourceVersion b)) (requested t b)
          end = with_ResourceVersion (S (ResourceVersion b)) (requested t b)) as Hsame
    by (by destruct calms).
  rewrite Hsame in Hwait.
  exists t, w2. unfold reconcileSourceBucketCmdRun.
  unfold before_request in Hreq. unfold before_wait in Hwait.
  rewrite Hk, HGet, Hs, Hreq, Hwait. split; [reflexivity|]. split; [exact Hst2|].
  rewrite Ht2, Ho2. simpl. rewrite Ht1, Ho1. simpl. rewrite Ht0, Ho0.
  by rewrite <- !app_assoc.
Qed.

(** Three ticks of the poll pass, then the context has run out. *)
Lemma reconcileSourceBucketCmdRun_never_handled_witness :
  exists (t : string) (w' : World),
    let annotated := with_ResourceVersion 8 (requested t Samples.podinfo) in
    reconcileSourceBucketCmdRun Samples.rootArgs ["podinfo"]
      (Samples.cluster [Idle; Idle; Idle; Idle; Idle; Idle; Idle;
                        Unavailable "context deadline exceeded"])
      = (Returned (Some (ErrServer "context deadline exceeded")), annotated, w') /\
    stored w' = Some annotated /\
    trace w' = [CallGet (inr Samples.podinfo); CallGet (inr Samples.podinfo);
                CallUpdate (requested t Samples.podinfo) None]
                 ++ replicate 4 (CallGet (inr annotated))
                 ++ [CallGet (inl (ErrServer "context deadline exceeded"))] /\
    output w' = take 3 (success_lines Samples.rootArgs "podinfo" "").
Proof.
  apply (reconcileSourceBucketCmdRun_never_handled Samples.rootArgs "podinfo"
           "context deadline exceeded" [] Samples.podinfo
           (Samples.cluster [Idle; Idle; Idle; Idle; Idle; Idle; Idle;
                             Unavailable "context deadline exceeded"])
           Idle Idle Idle [Idle; Idle; Idle; Idle] []);
    [reflexivity.. | simpl; lia].
Defined.

(** X13.  When the first fetch fails (the resource does not exist, or the
    server cannot be reached), the command returns that error as it is,
    after this one call: nothing is printed and [bucket] is still empty. *)
Theorem reconcileSourceBucketCmdRun_first_fetch_fails
    (rootArgs : RootArgs) (name : string) (rest : list string)
    (w w1 : World) (e : error) (bucket1 : Bucket) :
  KubeClient rootArgs = None ->
  Get zeroBucket w = (Some e, bucket1, w1) ->
  reconcileSourceBucketCmdRun rootArgs (name :: rest) w
    = (Returned (Some e), zeroBucket, w1) /\
  trace w1 = trace w ++ [CallGet (inl e)] /\
  output w1 = output w /\
  stored w1 = stored (arrive w).2.
Proof.
  intros Hk HGet. unfold reconcileSourceBucketCmdRun. rewrite Hk, HGet.
  pose proof (Get_frame zeroBucket w) as [Hst _]. rewrite HGet in Hst.
  apply Get_err in HGet as (-> & _ & _ & ->). simpl.
  destruct (arrive_trace w) as [-> ->]. done.
Qed.

Lemma reconcileSourceBucketCmdRun_first_fetch_fails_witness :
  let w := with_stored None (Samples.cluster []) in
  reconcileSourceBucketCmdRun Samples.rootArgs ["podinfo"] w
    = (Returned (Some ErrNotFound), zeroBucket, record (CallGet (inl ErrNotFound)) w) /\
  trace (record (CallGet (inl ErrNotFound)) w) = trace w ++ [CallGet (inl ErrNotFound)] /\
  output (record (CallGet (inl ErrNotFound)) w) = output w /\
  stored (record (CallGet (inl ErrNotFound)) w) = stored (arrive w).2.
Proof.
  intros w.
  apply (reconcileSourceBucketCmdRun_first_fetch_fails Samples.rootArgs "podinfo" [] w
           _ ErrNotFound zeroBucket); reflexivity.
Defined.

(** ** The readiness predicate: what its answers mean *)

(** Both lookups of apimeta stop at the first condition of the type. *)
Lemma IsStatusConditionPresentAndEqual_find
    (conditions : list metav1.Condition) (conditionType status : string) :
  apimeta.IsStatusConditionPresentAndEqual conditions conditionType status = true <->
  exists c, apimeta.FindStatusCondition conditions conditionType = Some c /\
            metav1.Status c = status.
Proof.
  induction conditions as [|c rest IH]; simpl.
  - split; [done|]. by intros (c & H & _).
  - destruct (String.eqb (metav1.Type_ c) conditionType); [|exact IH].
    split.
    + intros H%String.eqb_eq. eauto.
    + intros (c' & [= <-] & H). by apply String.eqb_eq.
Qed.

(** X14.  On a fetched snapshot, isBucketReady answers (true, nil) exactly
    when the snapshot's observed generation is its generation and its
    first Ready condition has status True. *)
Theorem isBucketReady_true_iff (bucket snapshot : Bucket) (w w1 : World) :
  Get bucket w = (None, snapshot, w1) ->
  isBucketReady bucket w = ((true, None), snapshot, w1) <->
  Generation snapshot = ObservedGeneration (Status snapshot) /\
  apimeta.IsStatusConditionPresentAndEqual
    (Conditions (Status snapshot)) meta.ReadyCondition metav1.ConditionTrue = true.
Proof.
  intros HGet. unfold isBucketReady. rewrite HGet.
  rewrite IsStatusConditionPresentAndEqual_find.
  destruct (Z.eqb_spec (Generation snapshot) (ObservedGeneration (Status snapshot)));
    simpl; [|split; [done|by intros [? _]]].
  destruct (apimeta.FindStatusCondition _ _) as [c|];
    [|split; [done|by intros (_ & c & ? & _)]].
  destruct (String.eqb_spec (metav1.Status c) metav1.ConditionTrue) as [Ht|Ht].
  - split; [eauto|done].
  - split.
    + by destruct (String.eqb _ _).
    + intros (_ & c' & [= <-] & H). done.
Qed.

Lemma isBucketReady_true_iff_witness :
  let w := Samples.cluster
    [Samples.controller 2 [Samples.ready "True" "stored artifact"] None] in
  isBucketReady zeroBucket w = ((true, None), (Get zeroBucket w).1.2, (Get zeroBucket w).2).
Proof.
  intros w.
  apply (isBucketReady_true_iff zeroBucket _ w _ eq_refl). split; reflexivity.
Defined.

(** X15.  On a fetched snapshot, isBucketReady answers with an error
    exactly when the observed generation is the generation and the first
    Ready condition has status False; the error is then made of that
    condition's message, and reads as the message itself where the message
    has no percent sign. *)
Theorem isBucketReady_error_iff (bucket snapshot : Bucket) (w w1 : World) (e : error) :
  Get bucket w = (None, snapshot, w1) ->
  (isBucketReady bucket w = ((false, Some e), snapshot, w1) <->
   Generation snapshot = ObservedGeneration (Status snapshot) /\
   exists c,
     apimeta.FindStatusCondition (Conditions (Status snapshot)) meta.ReadyCondition
       = Some c /\
     metav1.Status c = metav1.ConditionFalse /\
     e = Errorf (metav1.Message c)) /\
  (forall r, (isBucketReady bucket w).1.1 = (r, Some e) -> r = false) /\
  (forall message,
      e = Errorf message -> has_percent message = false -> Error e = Some message).
Proof.
  intros HGet. split; [|split].
  - unfold isBucketReady. rewrite HGet.
    destruct (Z.eqb_spec (Generation snapshot) (ObservedGeneration (Status snapshot)));
      simpl; [|split; [done|by intros [? _]]].
    destruct (apimeta.FindStatusCondition _ _) as [c|];
      [|split; [done|by intros (_ & c & ? & _)]].
    destruct (String.eqb_spec (metav1.Status c) metav1.ConditionTrue) as [Ht|Ht].
    + split; [done|]. intros (_ & c' & [= <-] & Hf & _). rewrite Hf in Ht. done.
    + destruct (String.eqb_spec (metav1.Status c) metav1.ConditionFalse) as [Hf|Hf].
      * split.
        -- intros [= <-]. eauto.
        -- intros (_ & c' & [= <-] & _ & ->). done.
      * split; [done|]. intros (_ & c' & [= <-] & Hf' & _). done.
  - unfold isBucketReady. rewrite HGet.
    destruct (negb _); simpl; [by intros r [= <-]|].
    destruct (apimeta.FindStatusCondition _ _) as [c|]; [|by intros r [= <-]].
    destruct (String.eqb _ _); [done|].
    destruct (String.eqb _ _); by intros r [= <-].
  - intros message -> Hp. simpl. by rewrite Hp.
Qed.

Lemma isBucketReady_error_iff_witness :
  let w := Samples.cluster
    [Samples.controller 2 [Samples.ready "False" "fetch failed"] None] in
  isBucketReady zeroBucket w
    = ((false, Some (Errorf "fetch failed")), (Get zeroBucket w).1.2, (Get zeroBucket w).2) /\
  Error (Errorf "fetch failed") = Some "fetch failed".
Proof.
  intros w.
  destruct (isBucketReady_error_iff zeroBucket (Get zeroBucket w).1.2 w
              (Get zeroBucket w).2 (Errorf "fetch failed") eq_refl)
    as (Hiff & _ & Htext).
  split.
  - apply Hiff. split; [reflexivity|]. eexists. repeat split; reflexivity.
  - apply (Htext "fetch failed"); reflexivity.
Defined.

(** X16.  Both predicates only read.  One evaluation makes exactly one
    fetch and no write and prints nothing; a fetch that fails is answered
    with (false, that error) and leaves [bucket] as it was; a fetch that
    succeeds leaves its snapshot in [bucket]. *)
Theorem predicates_only_fetch (baseline : string) (bucket : Bucket) (w : World) :
  (let '((ok, err), bucket', w') := isBucketReady bucket w in
   output w' = output w /\ stored w' = stored (arrive w).2 /\
   match Get bucket w with
   | (Some e, _, _) =>
       trace w' = trace w ++ [CallGet (inl e)] /\
       ok = false /\ err = Some e /\ bucket' = bucket
   | (None, snapshot, _) =>
       trace w' = trace w ++ [CallGet (inr snapshot)] /\ bucket' = snapshot
   end) /\
  (let '((ok, err), bucket', w') := bucketReconciliationHandled baseline bucket w in
   output w' = output w /\ stored w' = stored (arrive w).2 /\
   match Get bucket w with
   | (Some e, _, _) =>
       trace w' = trace w ++ [CallGet (inl e)] /\
       ok = false /\ err = Some e /\ bucket' = bucket
   | (None, snapshot, _) =>
       trace w' = trace w ++ [CallGet (inr snapshot)] /\ bucket' = snapshot /\ err = None
   end).
Proof.
  pose proof (Get_frame bucket w) as [Hst _].
  destruct (arrive_trace w) as [Hta Hoa].
  unfold isBucketReady, bucketReconciliationHandled.
  destruct (Get bucket w) as [[[e|] b1] w1] eqn:HGet; simpl in Hst.
  - apply Get_err in HGet as (-> & _ & _ & ->). simpl. by rewrite Hta, Hoa.
  - apply Get_ok in HGet as [_ ->]. split.
    + destruct (negb _);
        [|destruct (apimeta.FindStatusCondition _ _) as [c|];
          [destruct (String.eqb _ _); [|destruct (String.eqb _ _)]|]];
        simpl; by rewrite Hta, Hoa.
    + simpl; by rewrite Hta, Hoa.
Qed.

(** X17.  The failure test of the command and isBucketReady do not
    contradict each other on a fetched snapshot: what isBucketReady calls
    ready the command does not call failed, and what the command calls
    failed isBucketReady answers with false, and with an error where the
    generation is observed. *)
Theorem isBucketReady_agrees_with_failure_test
    (bucket snapshot : Bucket) (w w1 : World) :
  Get bucket w = (None, snapshot, w1) ->
  ((isBucketReady bucket w).1.1.1 = true ->
   apimeta.IsStatusConditionFalse (Conditions (Status snapshot)) meta.ReadyCondition
     = false) /\
  (apimeta.IsStatusConditionFalse (Conditions (Status snapshot)) meta.ReadyCondition
     = true ->
   (isBucketReady bucket w).1.1.1 = false /\
   (Generation snapshot = ObservedGeneration (Status snapshot) ->
    exists c,
      apimeta.FindStatusCondition (Conditions (Status snapshot)) meta.ReadyCondition
        = Some c /\
      (isBucketReady bucket w).1.1.2 = Some (Errorf (metav1.Message c)))).
Proof.
  intros HGet. unfold isBucketReady, apimeta.IsStatusConditionFalse. rewrite HGet.
  pose proof (IsStatusConditionPresentAndEqual_find (Conditions (Status snapshot))
                meta.ReadyCondition metav1.ConditionFalse) as Hfind.
  destruct (apimeta.IsStatusConditionPresentAndEqual _ _ metav1.ConditionFalse).
  - destruct (proj1 Hfind eq_refl) as (c & Hc & Hf). rewrite Hc.
    assert (String.eqb (metav1.Status c) metav1.ConditionTrue = false) as Hnt
      by (by rewrite Hf).
    assert (String.eqb (metav1.Status c) metav1.ConditionFalse = true) as Hff
      by (by rewrite Hf).
    rewrite Hnt, Hff.
    destruct (Z.eqb_spec (Generation snapshot) (ObservedGeneration (Status snapshot)));
      simpl; split; try done; intros _; split; try done; eauto.
  - split; [done|]. done.
Qed.

Lemma isBucketReady_agrees_with_failure_test_witness :
  let w := Samples.cluster
    [Samples.controller 2 [Samples.ready "False" "fetch failed"] None] in
  (isBucketReady zeroBucket w).1.1.1 = false /\
  exists c,
    apimeta.FindStatusCondition (Conditions (Status (Get zeroBucket w).1.2))
      meta.ReadyCondition = Some c /\
    (isBucketReady zeroBucket w).1.1.2 = Some (Errorf (metav1.Message c)).
Proof.
  intros w.
  destruct (isBucketReady_agrees_with_failure_test zeroBucket (Get zeroBucket w).1.2 w
              (Get zeroBucket w).2 eq_refl) as [_ Hfailed].
  destruct (Hfailed eq_refl) as [Hfalse Herr].
  split; [exact Hfalse|]. apply Herr. reflexivity.
Defined.

(** ** The orchestrator: where its errors come from *)




